(** * Bee Catching Game: the update step of [app/bee/main.go]

    A shallow embedding of the game state ([Bee], [Game]) and of
    [NewGame], [Game.addBee] and [Game.Update], followed by the properties
    of the update step.

    Conventions of the embedding.
    - Go's [int] is the 64-bit two's-complement integer of the usual
      targets: a [Z] kept in range by [GoInt.wrap].
    - Go's [float64] is IEEE 754 binary64: Rocq's primitive [float], whose
      operations round to nearest-even exactly as the hardware does.
    - What [Update] reads from its environment during one call (the mouse,
      the clock and the values returned by [math/rand]) is gathered in the
      record [Input].
    - The sprite images are global variables of the program, loaded once;
      only their sizes matter to [Update] and they are the record [Assets].
    - A run-time panic ([rand.Intn] with a non-positive bound) is [None]. *)

From Stdlib Require Import String DecimalString.
From Stdlib Require Import ZArith QArith List Bool Lia.
From Stdlib Require Import Floats Uint63.
Import ListNotations.

Local Open Scope Z_scope.

(** ** Go's [int] *)

Module GoInt.

Definition minInt : Z := - 2 ^ 63.
Definition maxInt : Z := 2 ^ 63 - 1.

Definition inRange (z : Z) : Prop := minInt <= z <= maxInt.

(** Two's-complement wrap-around of a mathematical result. *)
Definition wrap (z : Z) : Z := (z + 2 ^ 63) mod 2 ^ 64 - 2 ^ 63.

Definition add (a b : Z) : Z := wrap (a + b).
Definition sub (a b : Z) : Z := wrap (a - b).

(** [a / b] truncates toward zero. *)
Definition div (a b : Z) : Z := wrap (Z.quot a b).

Definition mul (a b : Z) : Z := wrap (a * b).

End GoInt.

(** ** Go's [float64] *)

Module F64.

Local Open Scope float_scope.

(** The conversion [float64(n)] of an [int]: exact up to 2^53 and
    rounded to nearest beyond, symmetrically in the sign. *)
Definition of_int (n : Z) : float :=
  if (n =? GoInt.minInt)%Z then - (of_uint63 (Uint63.of_Z (2 ^ 62)) * 2)
  else if (n <? 0)%Z then - of_uint63 (Uint63.of_Z (- n))
  else of_uint63 (Uint63.of_Z n).

(** The conversion [int(f)]: the fraction is discarded.  A value that
    does not fit ([NaN], infinities, magnitudes from 2^63 on) yields the
    "integer indefinite" value of the amd64 conversion instruction. *)
Definition to_int (f : float) : Z :=
  match Prim2SF f with
  | S754_zero _ => 0%Z
  | S754_finite s m e =>
      let mag := if (0 <=? e)%Z then (Zpos m * 2 ^ e)%Z
                 else Z.quot (Zpos m) (2 ^ (- e)) in
      let v := if s then (- mag)%Z else mag in
      if ((GoInt.minInt <=? v) && (v <=? GoInt.maxInt))%Z then v
      else GoInt.minInt
  | _ => GoInt.minInt
  end.

(** Go's comparison operators on [float64]; all are false on [NaN]. *)
Definition lt (a b : float) : bool := a <? b.
Definition le (a b : float) : bool := a <=? b.
Definition ge (a b : float) : bool := b <=? a.

(** The rational number a finite float stands for (0 for the others),
    and the test that a sum of two floats was not rounded. *)
Definition finite (f : float) : bool :=
  match Prim2SF f with
  | S754_zero _ | S754_finite _ _ _ => true
  | _ => false
  end.

Definition toQ (f : float) : Q :=
  match Prim2SF f with
  | S754_finite s m e =>
      ((if s then (-1) else 1) * inject_Z (Zpos m) * Qpower 2 e)%Q
  | _ => 0%Q
  end.

Definition exactAdd (a b : float) : bool :=
  finite (a + b) && Qeq_bool (toQ (a + b)) (toQ a + toQ b).

(** Literals of the program, as the nearest binary64 values. *)
Definition c0_05 : float := 0x1.999999999999ap-5.
Definition c0_1 : float := 0x1.999999999999ap-4.
Definition c0_2 : float := 0x1.999999999999ap-3.
Definition c1e9 : float := 1000000000.

End F64.

(** ** The clock ([time.Time], [time.Duration]) *)

Module Time.

(** An instant is a count of nanoseconds on the monotonic clock. *)
Definition Time : Type := Z.

(** The zero value of [time.Time]. *)
Definition zero : Time := 0.

Definition Second : Z := 1000000000.

(** [time.Since(t)] evaluated when the clock reads [now]: a [Duration]
    (an [int64] of nanoseconds), saturated at its extreme values. *)
Definition Since (now t : Time) : Z :=
  Z.max GoInt.minInt (Z.min GoInt.maxInt (now - t)).

(** [Duration.Seconds]: whole seconds plus the fraction, as a float. *)
Definition Seconds (d : Z) : float :=
  (F64.of_int (Z.quot d Second) + F64.of_int (Z.rem d Second) / F64.c1e9)%float.

End Time.

(** ** [math/rand] *)

(** [rand.Intn(n)] panics when [n <= 0]; otherwise it returns a value of
    [[0, n)], here the reduction of the generator's raw draw. *)
Definition Intn (raw n : Z) : option Z :=
  if n <=? 0 then None else Some (raw mod n).

(** ** Constants *)

Definition screenWidth : Z := 800.
Definition screenHeight : Z := 600.
Definition gameTime : Z := 60.

(** ** Data model *)

Record Bee : Type := mkBee {
  x : float;
  y : float;
  speedX : float;
  speedY : float;
  width : Z;
  height : Z;
  isHornets : bool;
  isHighSpeed : bool;
  visible : bool
}.

(** The [face] field of the program (a font, read by [Draw] only) is left
    out. *)
Record Game : Type := mkGame {
  bees : list Bee;
  score : Z;
  hornetsClicked : Z;
  gameOver : bool;
  gameStarted : bool;
  startTime : Time.Time;
  remainingTime : Z;
  lightningEffect : bool;
  lightningTimer : Z
}.

(** The size of a decoded image, as [Image.Size] returns it. *)
Record Image : Type := mkImage { imgWidth : Z; imgHeight : Z }.

Record Assets : Type := mkAssets {
  beeImage : Image;
  hornetsImage : Image
}.

(** What one call of [Update] observes. *)
Record Input : Type := mkInput {
  justPressed : bool;      (* inpututil.IsMouseButtonJustPressed(Left) *)
  cursorX : Z;             (* ebiten.CursorPosition() *)
  cursorY : Z;
  now : Time.Time;         (* the clock, read by time.Now / time.Since *)
  rollSpawn : float;       (* rand.Float64() of the spawn test *)
  rollHornets : float;     (* the draws of addBee, in program order *)
  rollHighSpeed : float;
  rawX : Z;
  rawY : Z;
  rollSpeedX : float;
  rollSpeedY : float
}.

(** The three phases the two flags encode, in the order [Update] tests
    them. *)
Inductive Phase : Type := NotStarted | Playing | Over.

Definition phase (g : Game) : Phase :=
  if negb (gameStarted g) then NotStarted
  else if gameOver g then Over
  else Playing.

(** Field updates. *)

Definition set_bees (bs : list Bee) (g : Game) : Game :=
  mkGame bs (score g) (hornetsClicked g) (gameOver g) (gameStarted g)
         (startTime g) (remainingTime g) (lightningEffect g) (lightningTimer g).

Definition set_score (s : Z) (g : Game) : Game :=
  mkGame (bees g) s (hornetsClicked g) (gameOver g) (gameStarted g)
         (startTime g) (remainingTime g) (lightningEffect g) (lightningTimer g).

Definition set_hornetsClicked (n : Z) (g : Game) : Game :=
  mkGame (bees g) (score g) n (gameOver g) (gameStarted g)
         (startTime g) (remainingTime g) (lightningEffect g) (lightningTimer g).

Definition set_gameOver (b : bool) (g : Game) : Game :=
  mkGame (bees g) (score g) (hornetsClicked g) b (gameStarted g)
         (startTime g) (remainingTime g) (lightningEffect g) (lightningTimer g).

Definition set_gameStarted (b : bool) (g : Game) : Game :=
  mkGame (bees g) (score g) (hornetsClicked g) (gameOver g) b
         (startTime g) (remainingTime g) (lightningEffect g) (lightningTimer g).

Definition set_startTime (t : Time.Time) (g : Game) : Game :=
  mkGame (bees g) (score g) (hornetsClicked g) (gameOver g) (gameStarted g)
         t (remainingTime g) (lightningEffect g) (lightningTimer g).

Definition set_remainingTime (n : Z) (g : Game) : Game :=
  mkGame (bees g) (score g) (hornetsClicked g) (gameOver g) (gameStarted g)
         (startTime g) n (lightningEffect g) (lightningTimer g).

Definition set_lightningEffect (b : bool) (g : Game) : Game :=
  mkGame (bees g) (score g) (hornetsClicked g) (gameOver g) (gameStarted g)
         (startTime g) (remainingTime g) b (lightningTimer g).

Definition set_lightningTimer (n : Z) (g : Game) : Game :=
  mkGame (bees g) (score g) (hornetsClicked g) (gameOver g) (gameStarted g)
         (startTime g) (remainingTime g) (lightningEffect g) n.

Definition set_visible (v : bool) (b : Bee) : Bee :=
  mkBee (x b) (y b) (speedX b) (speedY b) (width b) (height b)
        (isHornets b) (isHighSpeed b) v.

(** ** [NewGame] *)

Definition NewGame : Game :=
  {| bees := [];
     score := 0;
     hornetsClicked := 0;
     gameOver := false;
     gameStarted := false;
     startTime := Time.zero;
     remainingTime := gameTime;
     lightningEffect := false;
     lightningTimer := 0 |}.

(** ** [Game.addBee] *)

Definition addBee (assets : Assets) (inp : Input) (g : Game) : option Game :=
  let hornets := F64.lt (rollHornets inp) F64.c0_2 in
  let highSpeed := F64.lt (rollHighSpeed inp) F64.c0_1 in
  let img := if hornets then hornetsImage assets else beeImage assets in
  let w := GoInt.div (imgWidth img) 2 in
  let h := GoInt.div (imgHeight img) 2 in
  let speedBase := (if highSpeed then 5 else 2)%float in
  match Intn (rawX inp) (GoInt.sub screenWidth w) with
  | None => None
  | Some px =>
      match Intn (rawY inp) (GoInt.sub screenHeight h) with
      | None => None
      | Some py =>
          let bee :=
            {| x := F64.of_int px;
               y := F64.of_int py;
               speedX := ((rollSpeedX inp * 2 - 1) * speedBase)%float;
               speedY := ((rollSpeedY inp * 2 - 1) * speedBase)%float;
               width := w;
               height := h;
               isHornets := hornets;
               isHighSpeed := highSpeed;
               visible := true |} in
          Some (set_bees (bees g ++ [bee]) g)
      end
  end.

(** ** [Game.Update], block by block *)

(** "Add new bees randomly". *)
Definition spawnStep (assets : Assets) (inp : Input) (g : Game) : option Game :=
  if F64.lt (rollSpawn inp) F64.c0_05 && (Z.of_nat (length (bees g)) <? 10)
  then addBee assets inp g
  else Some g.

(** "Update lightning effect timer". *)
Definition lightningStep (g : Game) : Game :=
  if lightningEffect g then
    let g1 := set_lightningTimer (GoInt.sub (lightningTimer g) 1) g in
    if lightningTimer g1 <=? 0 then set_lightningEffect false g1 else g1
  else g.

(** The wall tests of one axis, on the coordinate reached by the move. *)
Definition atWall (pos : float) (limit size : Z) : bool :=
  F64.le pos 0 || F64.ge pos (F64.of_int (GoInt.sub limit size)).

(** The body of the loop "Update bee positions" for one bee. *)
Definition moveBee (b : Bee) : Bee :=
  if negb (visible b) then b
  else
    let x1 := (x b + speedX b)%float in
    let y1 := (y b + speedY b)%float in
    let sx := if atWall x1 screenWidth (width b)
              then (- speedX b)%float else speedX b in
    let sy := if atWall y1 screenHeight (height b)
              then (- speedY b)%float else speedY b in
    mkBee x1 y1 sx sy (width b) (height b)
          (isHornets b) (isHighSpeed b) (visible b).

Definition moveStep (g : Game) : Game :=
  set_bees (map moveBee (bees g)) g.

(** "Check if click is within bee bounds". *)
Definition contains (b : Bee) (cx cy : Z) : bool :=
  F64.ge (F64.of_int cx) (x b)
  && F64.le (F64.of_int cx) (x b + F64.of_int (width b))%float
  && F64.ge (F64.of_int cy) (y b)
  && F64.le (F64.of_int cy) (y b + F64.of_int (height b))%float.

(** A bee answers a click when it is visible and holds the point. *)
Definition hitTest (cx cy : Z) (b : Bee) : bool :=
  visible b && contains b cx cy.

(** The bookkeeping of a hit on bee [b] (the bee itself is hidden by the
    loop). *)
Definition onHit (b : Bee) (g : Game) : Game :=
  if isHornets b then
    let g1 := set_hornetsClicked (GoInt.add (hornetsClicked g) 1) g in
    let g2 := set_lightningEffect true g1 in
    let g3 := set_lightningTimer 30 g2 in
    if 3 <=? hornetsClicked g3 then set_gameOver true g3 else g3
  else if isHighSpeed b then set_score (GoInt.add (score g) 3) g
  else set_score (GoInt.add (score g) 1) g.

(** The click loop over the slice, from its current index on: invisible
    bees and bees that miss are skipped, the first hit is processed and
    ends the loop ([break]).  The game carried along holds the counters;
    its [bees] field is written back by [clickStep]. *)
Fixpoint clickLoop (cx cy : Z) (bs : list Bee) (g : Game) : list Bee * Game :=
  match bs with
  | [] => ([], g)
  | b :: rest =>
      if negb (visible b) then
        let (rest', g') := clickLoop cx cy rest g in (b :: rest', g')
      else if contains b cx cy then
        (set_visible false b :: rest, onHit b g)
      else
        let (rest', g') := clickLoop cx cy rest g in (b :: rest', g')
  end.

(** "Check for mouse clicks". *)
Definition clickStep (inp : Input) (g : Game) : Game :=
  if justPressed inp then
    let (bs, g') := clickLoop (cursorX inp) (cursorY inp) (bees g) g in
    set_bees bs g'
  else g.

(** "Remove invisible bees". *)
Definition removeInvisible (g : Game) : Game :=
  set_bees (filter visible (bees g)) g.

(** "Update remaining time": the value computed before the test. *)
Definition computedRemaining (inp : Input) (g : Game) : Z :=
  GoInt.sub gameTime
    (F64.to_int (Time.Seconds (Time.Since (now inp) (startTime g)))).

(** The part of a playing tick that precedes click handling. *)
Definition beforeClick (assets : Assets) (inp : Input) (g : Game) : option Game :=
  match spawnStep assets inp g with
  | None => None
  | Some g1 => Some (moveStep (lightningStep g1))
  end.

(** "Reset game": the assignments of the Over branch, in program order. *)
Definition resetGame (inp : Input) (g : Game) : Game :=
  let g1 := set_bees [] g in
  let g2 := set_score 0 g1 in
  let g3 := set_hornetsClicked 0 g2 in
  let g4 := set_gameOver false g3 in
  let g5 := set_startTime (now inp) g4 in
  let g6 := set_remainingTime gameTime g5 in
  set_lightningEffect false g6.

Definition Update (assets : Assets) (inp : Input) (g : Game) : option Game :=
  if negb (gameStarted g) then
    if justPressed inp
    then Some (set_startTime (now inp) (set_gameStarted true g))
    else Some g
  else if gameOver g then
    if justPressed inp then Some (resetGame inp g) else Some g
  else
    let g1 := set_remainingTime (computedRemaining inp g) g in
    if remainingTime g1 <=? 0 then
      Some (set_remainingTime 0 (set_gameOver true g1))
    else
      match beforeClick assets inp g1 with
      | None => None
      | Some g2 => Some (removeInvisible (clickStep inp g2))
      end.

(** ** Reachable states *)

Inductive reachable (assets : Assets) : Game -> Prop :=
| reachable_new : reachable assets NewGame
| reachable_step : forall inp g g',
    reachable assets g ->
    Update assets inp g = Some g' ->
    reachable assets g'.

(** A sequence of ticks, fed with one input each. *)
Fixpoint run (assets : Assets) (inps : list Input) (g : Game) : option Game :=
  match inps with
  | [] => Some g
  | inp :: rest =>
      match Update assets inp g with
      | None => None
      | Some g' => run assets rest g'
      end
  end.

(** ** [Game.Draw] and [Game.Layout] *)

(** The screen is the sequence of calls [Draw] makes to the engine, in
    program order. *)

Inductive ImageId : Type := BeeImg | HornetsImg | ForestImg.

(** [color.Black], [color.White] and a [color.RGBA] literal. *)
Inductive Color : Type :=
| Black
| White
| RGBA (r g b a : Z).

(** The one transformation an image is drawn with. *)
Inductive GeoM : Type :=
| Scale (sx sy : float)
| Translate (tx ty : float).

Inductive DrawOp : Type :=
| DrawImage (img : ImageId) (m : GeoM)      (* screen.DrawImage(img, op) *)
| DrawFilled (w h : Z) (c : Color)          (* a filled image, drawn as is *)
| DrawText (msg : string) (px py : Z) (c : Color)           (* text.Draw *)
| DrawLine (x1 y1 x2 y2 : float) (c : Color).    (* ebitenutil.DrawLine *)

(** [fmt.Sprintf("%d", n)]. *)
Definition formatInt (n : Z) : string :=
  NilZero.string_of_int (Z.to_int n).

(** [drawForestBackground]: the background scaled to the screen, then a
    translucent green overlay. *)
Definition drawForestBackground (forest : Image) : list DrawOp :=
  let scaleX := (F64.of_int screenWidth / F64.of_int (imgWidth forest))%float in
  let scaleY := (F64.of_int screenHeight / F64.of_int (imgHeight forest))%float in
  [DrawImage ForestImg (Scale scaleX scaleY);
   DrawFilled screenWidth screenHeight (RGBA 0 100 0 40)].

(** The abscissa [(screenWidth - len(msg)*7) / 2] of a centred message. *)
Definition centredX (msg : string) : Z :=
  GoInt.div
    (GoInt.sub screenWidth (GoInt.mul (Z.of_nat (String.length msg)) 7)) 2.

(** A text with its shadow: black one pixel down and right, then white. *)
Definition shadowed (msg : string) (px py : Z) : list DrawOp :=
  [DrawText msg (GoInt.add px 1) (GoInt.add py 1) Black;
   DrawText msg px py White].

(** The loop "Draw bees". *)
Fixpoint drawBees (bs : list Bee) : list DrawOp :=
  match bs with
  | [] => []
  | b :: rest =>
      if negb (visible b) then drawBees rest
      else
        DrawImage (if isHornets b then HornetsImg else BeeImg)
                  (Translate (x b) (y b))
        :: drawBees rest
  end.

(** The loop "Draw lightning effect" from its index [i] on, [n] rounds
    being left; round [i] reads the raw draws [draws i] for its two calls
    of [rand.Intn(screenWidth)]. *)
Fixpoint drawLightning (draws : nat -> Z * Z) (i n : nat) : option (list DrawOp) :=
  match n with
  | O => Some []
  | S m =>
      match Intn (fst (draws i)) screenWidth with
      | None => None
      | Some x1 =>
          match Intn (snd (draws i)) screenWidth with
          | None => None
          | Some x2 =>
              match drawLightning draws (S i) m with
              | None => None
              | Some rest =>
                  Some (DrawLine (F64.of_int x1) (F64.of_int 0)
                                 (F64.of_int x2) (F64.of_int screenHeight)
                                 (RGBA 255 255 0 192)
                        :: rest)
              end
          end
      end
  end.

Definition Draw (forest : Image) (draws : nat -> Z * Z) (g : Game)
  : option (list DrawOp) :=
  let background := drawForestBackground forest in
  if negb (gameStarted g) then
    let msg := "Click to start the Bee Catching Game!"%string in
    Some (background ++ shadowed msg (centredX msg) (GoInt.div screenHeight 2))
  else if gameOver g then
    let msg := ("Game Over! Your score: " ++ formatInt (score g))%string in
    let py := GoInt.div screenHeight 2 in
    let msg2 := "Click to play again"%string in
    Some (background
          ++ shadowed msg (centredX msg) py
          ++ shadowed msg2 (centredX msg2) (GoInt.add py 30))
  else
    match (if lightningEffect g then drawLightning draws 0 10 else Some []) with
    | None => None
    | Some lightning =>
        Some (background
              ++ drawBees (bees g)
              ++ lightning
              ++ shadowed ("Score: " ++ formatInt (score g))%string 10 20
              ++ shadowed ("Time: " ++ formatInt (remainingTime g))%string
                          (GoInt.sub screenWidth 100) 20
              ++ shadowed ("Hornets: " ++ formatInt (hornetsClicked g) ++ "/3")%string
                          10 40)
    end.

(** [Layout]: the logical screen, whatever the window. *)
Definition Layout (outsideWidth outsideHeight : Z) : Z * Z :=
  (screenWidth, screenHeight).

(** ** Notions used to state the invariants *)

(** The hit box of a sprite is smaller than the screen, so that the two
    calls of [rand.Intn] in [addBee] have a positive bound. *)
Definition fitsScreen (img : Image) : Prop :=
  0 < GoInt.sub screenWidth (GoInt.div (imgWidth img) 2) /\
  0 < GoInt.sub screenHeight (GoInt.div (imgHeight img) 2).

(** The sprite [addBee] picks for its draws. *)
Definition chosenImage (assets : Assets) (inp : Input) : Image :=
  if F64.lt (rollHornets inp) F64.c0_2
  then hornetsImage assets else beeImage assets.

(** The penalty counter is between 0 and 3, and 3 only in the Over
    phase. *)
Definition penaltyInv (g : Game) : Prop :=
  0 <= hornetsClicked g <= 3 /\ (hornetsClicked g = 3 -> phase g = Over).

(** The remaining time is positive until the game is over, and a game
    that is over has three penalties or no time left. *)
Definition clockInv (g : Game) : Prop :=
  0 <= remainingTime g /\
  (phase g <> Over -> 0 < remainingTime g) /\
  (phase g = Over -> hornetsClicked g = 3 \/ remainingTime g = 0).

(** The lightning timer is between 0 and 30, and at least 1 while the
    effect is on. *)
Definition lightningInv (g : Game) : Prop :=
  0 <= lightningTimer g <= 30 /\
  (lightningEffect g = true -> 1 <= lightningTimer g).

(** What can be observed of a state: once the effect is off its timer is
    read by nothing until a hornet hit overwrites it, so its stale value
    is dropped. *)
Definition observable (g : Game) : Game :=
  if lightningEffect g then g else set_lightningTimer 0 g.

(** Two states that differ at most in the timer of an effect that is
    off. *)
Definition staleTwin (g1 g2 : Game) : Prop :=
  lightningEffect g1 = false /\ exists t, g2 = set_lightningTimer t g1.

(** The call that draws bee [b]. *)
Definition spriteOf (b : Bee) : DrawOp :=
  DrawImage (if isHornets b then HornetsImg else BeeImg)
            (Translate (x b) (y b)).

Definition isSprite (op : DrawOp) : bool :=
  match op with
  | DrawImage BeeImg _ | DrawImage HornetsImg _ => true
  | _ => false
  end.

Definition isLine (op : DrawOp) : bool :=
  match op with
  | DrawLine _ _ _ _ _ => true
  | _ => false
  end.

(** A lightning bolt: a yellow line from the top edge to the bottom edge
    of the screen, between two abscissas of the screen. *)
Definition isBolt (op : DrawOp) : Prop :=
  exists x1 x2,
    op = DrawLine (F64.of_int x1) (F64.of_int 0)
                  (F64.of_int x2) (F64.of_int screenHeight)
                  (RGBA 255 255 0 192) /\
    0 <= x1 < screenWidth /\ 0 <= x2 < screenWidth.

(** ** Notions used to state the motion properties *)

(** The tick performed from [b] meets no wall test, on either axis. *)
Definition noWallHit (b : Bee) : bool :=
  negb (atWall (x b + speedX b)%float screenWidth (width b))
  && negb (atWall (y b + speedY b)%float screenHeight (height b)).

(** The tick performed from [b] crosses a horizontal bound: [b] is
    strictly between the bounds before the move and at or beyond one of
    them after it. *)
Definition crossesX (b : Bee) : bool :=
  negb (atWall (x b) screenWidth (width b))
  && atWall (x b + speedX b)%float screenWidth (width b).

Definition crossesY (b : Bee) : bool :=
  negb (atWall (y b) screenHeight (height b))
  && atWall (y b + speedY b)%float screenHeight (height b).

(** The coordinate built by [n] ticks: [v] added [n] times to [p], each
    sum rounded as [float64] sums are. *)
Definition addRepeatedly (n : nat) (v p : float) : float :=
  Nat.iter n (fun q => (q + v)%float) p.

(** None of the [n] sums of [addRepeatedly] is rounded. *)
Fixpoint exactSums (n : nat) (v p : float) : bool :=
  match n with
  | O => true
  | S m => exactSums m v p
           && F64.exactAdd (addRepeatedly m v p) v
  end.

(** None of the first [n] ticks from [b] meets a wall test. *)
Fixpoint noWallHitFor (n : nat) (b : Bee) : bool :=
  match n with
  | O => true
  | S m => noWallHitFor m b && noWallHit (Nat.iter m moveBee b)
  end.

(** ** Sample data *)

Module Sample.

Local Open Scope float_scope.

(** Sprites of 64 by 64 pixels: hit boxes of 32 by 32. *)
Definition assets : Assets :=
  {| beeImage := mkImage 64 64; hornetsImage := mkImage 64 64 |}.

Definition bee (px py vx vy : float) (hornets highSpeed : bool) : Bee :=
  mkBee px py vx vy 32 32 hornets highSpeed true.

(** An input with the button up and draws that spawn nothing. *)
Definition idle (t : Z) : Input :=
  {| justPressed := false; cursorX := 0; cursorY := 0;
     now := (t * Time.Second)%Z;
     rollSpawn := 0.5; rollHornets := 0.5; rollHighSpeed := 0.5;
     rawX := 0; rawY := 0; rollSpeedX := 0.5; rollSpeedY := 0.5 |}.

(** A press at [(cx, cy)], [t] seconds after the clock's origin. *)
Definition press (t cx cy : Z) : Input :=
  {| justPressed := true; cursorX := cx; cursorY := cy;
     now := (t * Time.Second)%Z;
     rollSpawn := 0.5; rollHornets := 0.5; rollHighSpeed := 0.5;
     rawX := 0; rawY := 0; rollSpeedX := 0.5; rollSpeedY := 0.5 |}.

(** Draws that spawn a normal bee at [(px, py)] with the speed rolls
    [rx] and [ry]. *)
Definition spawn (t px py : Z) (rx ry : float) : Input :=
  {| justPressed := false; cursorX := 0; cursorY := 0;
     now := (t * Time.Second)%Z;
     rollSpawn := 0.015625; rollHornets := 0.5; rollHighSpeed := 0.5;
     rawX := px; rawY := py; rollSpeedX := rx; rollSpeedY := ry |}.

(** A game being played, started when the clock read 0. *)
Definition playing (bs : list Bee) (sc hc : Z) : Game :=
  {| bees := bs; score := sc; hornetsClicked := hc;
     gameOver := false; gameStarted := true; startTime := 0%Z;
     remainingTime := gameTime;
     lightningEffect := false; lightningTimer := 0 |}.

(** A finished game. *)
Definition finished (bs : list Bee) (sc hc : Z) : Game :=
  {| bees := bs; score := sc; hornetsClicked := hc;
     gameOver := true; gameStarted := true; startTime := 0%Z;
     remainingTime := 0;
     lightningEffect := true; lightningTimer := 12 |}.

(** Draws that spawn a hornet at rest at [(px, py)]. *)
Definition spawnHornet (t px py : Z) : Input :=
  {| justPressed := false; cursorX := 0; cursorY := 0;
     now := (t * Time.Second)%Z;
     rollSpawn := 0.015625; rollHornets := 0.125; rollHighSpeed := 0.5;
     rawX := px; rawY := py; rollSpeedX := 0.5; rollSpeedY := 0.5 |}.

(** Two overlapping bees about to be clicked where both are: a normal one
    first, a high-speed one behind it. *)
Definition twoBees : Game :=
  playing [bee 100 300 1 0 false false; bee 90 290 0 1 false true] 5 1.

(** The same two bees after their move of the next tick. *)
Definition frontBee : Bee := bee 101 300 1 0 false false.
Definition backBee : Bee := bee 90 291 0 1 false true.

(** A game from its creation: started, three hornets spawned side by
    side, two of them clicked. *)
Definition twoPenalties : list Input :=
  [press 0 0 0; spawnHornet 1 100 300; spawnHornet 2 200 300;
   spawnHornet 3 300 300; press 4 110 310; press 5 210 310].

(** The state [twoPenalties] leads to: the third hornet is left. *)
Definition afterTwoPenalties : Game :=
  {| bees := [bee 300 300 0 0 true false]; score := 0; hornetsClicked := 2;
     gameOver := false; gameStarted := true; startTime := 0%Z;
     remainingTime := 55;
     lightningEffect := true; lightningTimer := 30 |}.

(** A bee spawned on the left bound and heading out: [rawX = 0] and the
    speed roll 0.25, which gives the velocity -1. *)
Definition stuck : Bee := bee 0 300 (-1) 0 false false.

(** The ticks that start a game and spawn [stuck]; the spawning tick
    already moves it once. *)
Definition stuckSpawned : list Input :=
  [press 0 0 0; spawn 1 0 300 0.25 0.5].

(** A bee spawned at (100, 300) with the speed roll 0.625: velocity
    0.5, whose sums are exact. *)
Definition gliding : Bee := bee 100 300 ((0.625 * 2 - 1) * 2) 0 false false.

(** A bee spawned at (100, 300) with the speed roll nearest to 0.55. *)
Definition drifting : Bee :=
  bee 100 300 ((0x1.199999999999ap-1 * 2 - 1) * 2) 0 false false.

(** The state a press on the third hornet of [afterTwoPenalties] leads
    to, six seconds into the game. *)
Definition afterThreePenalties : Game :=
  {| bees := []; score := 0; hornetsClicked := 3;
     gameOver := true; gameStarted := true; startTime := 0%Z;
     remainingTime := 54;
     lightningEffect := true; lightningTimer := 30 |}.

(** A background of twice the screen, and raw draws for the bolts. *)
Definition forest : Image := mkImage 1600 1200.

Definition boltDraws (i : nat) : Z * Z :=
  (Z.of_nat i * 1000 + 7, - Z.of_nat i - 3)%Z.

(** The ticks that start a game, spawn [drifting] and let it move three
    times in all. *)
Definition driftingSpawned : list Input :=
  [press 0 0 0; spawn 1 100 300 0x1.199999999999ap-1 0.5; idle 2; idle 3].

End Sample.

(** * Properties *)

(** ** Integer arithmetic stays exact inside the range *)

Lemma wrap_inRange (z : Z) : GoInt.inRange z -> GoInt.wrap z = z.
Proof.
  unfold GoInt.inRange, GoInt.wrap, GoInt.minInt, GoInt.maxInt.
  intros Hz. rewrite Z.mod_small; lia.
Qed.

Lemma add_small (a b : Z) :
  GoInt.minInt <= a + b <= GoInt.maxInt -> GoInt.add a b = a + b.
Proof. intros H. apply wrap_inRange. exact H. Qed.

(** ** The phases *)

Lemma phase_Playing (g : Game) :
  phase g = Playing <-> gameStarted g = true /\ gameOver g = false.
Proof.
  unfold phase. destruct (gameStarted g), (gameOver g); simpl;
    split; intros H; try discriminate; try (destruct H; discriminate); auto.
Qed.

Lemma phase_Over (g : Game) :
  phase g = Over <-> gameStarted g = true /\ gameOver g = true.
Proof.
  unfold phase. destruct (gameStarted g), (gameOver g); simpl;
    split; intros H; try discriminate; try (destruct H; discriminate); auto.
Qed.

(** ** The blocks of a playing tick, one by one *)

(** [Update] on a playing game whose clock has not run out. *)
Lemma Update_playing (assets : Assets) (inp : Input) (g : Game) :
  phase g = Playing ->
  0 < computedRemaining inp g ->
  Update assets inp g =
    match beforeClick assets inp
            (set_remainingTime (computedRemaining inp g) g) with
    | None => None
    | Some g2 => Some (removeInvisible (clickStep inp g2))
    end.
Proof.
  intros Hp Hr. apply phase_Playing in Hp. destruct Hp as [Hs Ho].
  unfold Update. rewrite Hs, Ho. simpl.
  destruct (Z.leb_spec (computedRemaining inp g) 0) as [Hle | _]; [lia |].
  reflexivity.
Qed.

(** [Update] on a playing game whose clock has run out. *)
Lemma Update_timeout (assets : Assets) (inp : Input) (g : Game) :
  phase g = Playing ->
  computedRemaining inp g <= 0 ->
  Update assets inp g =
    Some (set_remainingTime 0
           (set_gameOver true
             (set_remainingTime (computedRemaining inp g) g))).
Proof.
  intros Hp Hr. apply phase_Playing in Hp. destruct Hp as [Hs Ho].
  unfold Update. rewrite Hs, Ho. simpl.
  destruct (Z.leb_spec (computedRemaining inp g) 0) as [_ | Hlt]; [| lia].
  reflexivity.
Qed.

(** [addBee] appends exactly one visible bee and touches nothing else. *)
Lemma addBee_appends (assets : Assets) (inp : Input) (g g1 : Game) :
  addBee assets inp g = Some g1 ->
  exists b, visible b = true /\ g1 = set_bees (bees g ++ [b]) g.
Proof.
  unfold addBee. intros H.
  destruct (Intn (rawX inp) _) as [px |]; [| discriminate].
  destruct (Intn (rawY inp) _) as [py |]; [| discriminate].
  injection H as <-. eexists. split; [| reflexivity]. reflexivity.
Qed.

(** The spawn block adds nothing, or one visible bee below the cap. *)
Lemma spawnStep_cases (assets : Assets) (inp : Input) (g g1 : Game) :
  spawnStep assets inp g = Some g1 ->
  g1 = g \/
  ((length (bees g) < 10)%nat /\
   exists b, visible b = true /\ g1 = set_bees (bees g ++ [b]) g).
Proof.
  unfold spawnStep. intros H.
  destruct (F64.lt (rollSpawn inp) F64.c0_05); simpl in H.
  - destruct (Z.ltb_spec (Z.of_nat (length (bees g))) 10) as [Hlt | Hge].
    + right. split; [lia |]. eapply addBee_appends. exact H.
    + left. injection H as <-. reflexivity.
  - left. injection H as <-. reflexivity.
Qed.

(** The lightning block leaves everything but the effect alone. *)
Lemma lightningStep_frame (g : Game) :
  bees (lightningStep g) = bees g /\
  score (lightningStep g) = score g /\
  hornetsClicked (lightningStep g) = hornetsClicked g /\
  gameOver (lightningStep g) = gameOver g /\
  gameStarted (lightningStep g) = gameStarted g /\
  startTime (lightningStep g) = startTime g /\
  remainingTime (lightningStep g) = remainingTime g.
Proof.
  unfold lightningStep. destruct (lightningEffect g); [| repeat split].
  simpl. destruct (_ <=? 0); repeat split.
Qed.

Lemma moveBee_visible (b : Bee) : visible (moveBee b) = visible b.
Proof. unfold moveBee. destruct (visible b) eqn:Hv; simpl; auto. Qed.

(** ** The click loop *)

Section ClickLoop.

Variables cx cy : Z.

(** The loop keeps the slice's length. *)
Lemma clickLoop_length (bs : list Bee) (g : Game) :
  length (fst (clickLoop cx cy bs g)) = length bs.
Proof.
  induction bs as [| b rest IH]; simpl; [reflexivity |].
  destruct (visible b); simpl.
  - destruct (contains b cx cy); simpl; [reflexivity |].
    destruct (clickLoop cx cy rest g) as [rest' g'] eqn:E. simpl in *.
    now rewrite IH.
  - destruct (clickLoop cx cy rest g) as [rest' g'] eqn:E. simpl in *.
    now rewrite IH.
Qed.

(** No bee answers: nothing changes. *)
Lemma clickLoop_miss (bs : list Bee) (g : Game) :
  Forall (fun p => hitTest cx cy p = false) bs ->
  clickLoop cx cy bs g = (bs, g).
Proof.
  induction 1 as [| b rest Hb _ IH]; simpl; [reflexivity |].
  unfold hitTest in Hb. destruct (visible b); simpl in *.
  - rewrite Hb, IH. reflexivity.
  - rewrite IH. reflexivity.
Qed.

(** The first bee that answers is hidden and booked; the loop stops
    there, whatever follows. *)
Lemma clickLoop_first (pre post : list Bee) (b : Bee) (g : Game) :
  Forall (fun p => hitTest cx cy p = false) pre ->
  hitTest cx cy b = true ->
  clickLoop cx cy (pre ++ b :: post) g =
    (pre ++ set_visible false b :: post, onHit b g).
Proof.
  intros Hpre Hb. induction Hpre as [| p pre Hp _ IH]; simpl.
  - unfold hitTest in Hb. apply andb_true_iff in Hb. destruct Hb as [Hv Hc].
    rewrite Hv, Hc. reflexivity.
  - unfold hitTest in Hp. destruct (visible p); simpl in *.
    + rewrite Hp, IH. reflexivity.
    + rewrite IH. reflexivity.
Qed.

(** Every slice splits at its first answering bee, if it has one. *)
Lemma first_hit_split (bs : list Bee) :
  Forall (fun p => hitTest cx cy p = false) bs \/
  exists pre b post,
    bs = pre ++ b :: post /\
    Forall (fun p => hitTest cx cy p = false) pre /\
    hitTest cx cy b = true.
Proof.
  induction bs as [| b rest IH]; [left; constructor |].
  destruct (hitTest cx cy b) eqn:Hb.
  - right. exists [], b, rest. repeat split; auto.
  - destruct IH as [Hall | (pre & c & post & -> & Hpre & Hc)].
    + left. constructor; assumption.
    + right. exists (b :: pre), c, post. repeat split; auto.
Qed.

End ClickLoop.

(** ** Bookkeeping of a hit *)

Lemma onHit_frame (b : Bee) (g : Game) :
  bees (onHit b g) = bees g /\
  gameStarted (onHit b g) = gameStarted g /\
  startTime (onHit b g) = startTime g /\
  remainingTime (onHit b g) = remainingTime g.
Proof.
  unfold onHit. destruct (isHornets b); simpl.
  - destruct (3 <=? _); repeat split.
  - destruct (isHighSpeed b); repeat split.
Qed.

Lemma onHit_score (b : Bee) (g : Game) :
  score (onHit b g) =
    if isHornets b then score g
    else GoInt.add (score g) (if isHighSpeed b then 3 else 1).
Proof.
  unfold onHit. destruct (isHornets b); simpl.
  - destruct (3 <=? _); reflexivity.
  - destruct (isHighSpeed b); reflexivity.
Qed.

Lemma onHit_hornetsClicked (b : Bee) (g : Game) :
  hornetsClicked (onHit b g) =
    if isHornets b then GoInt.add (hornetsClicked g) 1 else hornetsClicked g.
Proof.
  unfold onHit. destruct (isHornets b); simpl.
  - destruct (3 <=? _); reflexivity.
  - destruct (isHighSpeed b); reflexivity.
Qed.

Lemma onHit_gameOver (b : Bee) (g : Game) :
  gameOver (onHit b g) =
    if isHornets b && (3 <=? GoInt.add (hornetsClicked g) 1)
    then true else gameOver g.
Proof.
  unfold onHit. destruct (isHornets b); simpl.
  - destruct (3 <=? _); reflexivity.
  - destruct (isHighSpeed b); reflexivity.
Qed.

(** ** A playing tick as a whole *)

(** What the blocks before click handling keep, and what they do to the
    slice: every bee moved, after at most one spawn below the cap. *)
Lemma beforeClick_frame (assets : Assets) (inp : Input) (g1 g2 : Game) :
  beforeClick assets inp g1 = Some g2 ->
  score g2 = score g1 /\
  hornetsClicked g2 = hornetsClicked g1 /\
  gameOver g2 = gameOver g1 /\
  gameStarted g2 = gameStarted g1 /\
  startTime g2 = startTime g1 /\
  remainingTime g2 = remainingTime g1 /\
  (bees g2 = map moveBee (bees g1) \/
   ((length (bees g1) < 10)%nat /\
    exists b, visible b = true /\ bees g2 = map moveBee (bees g1 ++ [b]))).
Proof.
  unfold beforeClick. intros H.
  destruct (spawnStep assets inp g1) as [g1' |] eqn:Hs; [| discriminate].
  injection H as <-.
  destruct (lightningStep_frame g1') as (Hb & Hsc & Hh & Ho & Hst & Ht & Hr).
  unfold moveStep. simpl. rewrite Hb, Hsc, Hh, Ho, Hst, Ht, Hr.
  apply spawnStep_cases in Hs.
  destruct Hs as [-> | (Hlen & b & Hv & ->)]; simpl.
  - repeat split. left. reflexivity.
  - repeat split. right. split; [exact Hlen |]. exists b. split; auto.
Qed.

(** Click handling either changes nothing or processes the first bee
    that answers. *)
Lemma clickStep_cases (inp : Input) (g2 : Game) :
  clickStep inp g2 = g2 \/
  exists pre b post,
    justPressed inp = true /\
    bees g2 = pre ++ b :: post /\
    Forall (fun p => hitTest (cursorX inp) (cursorY inp) p = false) pre /\
    hitTest (cursorX inp) (cursorY inp) b = true /\
    clickStep inp g2 =
      set_bees (pre ++ set_visible false b :: post) (onHit b g2).
Proof.
  unfold clickStep. destruct (justPressed inp) eqn:Hj; [| left; reflexivity].
  destruct (first_hit_split (cursorX inp) (cursorY inp) (bees g2))
    as [Hall | (pre & b & post & Hsplit & Hpre & Hb)].
  - left. rewrite clickLoop_miss by exact Hall. destruct g2; reflexivity.
  - right. exists pre, b, post. repeat split; auto.
    rewrite Hsplit, clickLoop_first by assumption. reflexivity.
Qed.

(** The shape of every playing tick whose clock has not run out. *)
Lemma Update_playing_cases (assets : Assets) (inp : Input) (g g' : Game) :
  phase g = Playing ->
  0 < computedRemaining inp g ->
  Update assets inp g = Some g' ->
  exists g2,
    beforeClick assets inp
      (set_remainingTime (computedRemaining inp g) g) = Some g2 /\
    (g' = removeInvisible g2 \/
     exists pre b post,
       justPressed inp = true /\
       bees g2 = pre ++ b :: post /\
       Forall (fun p => hitTest (cursorX inp) (cursorY inp) p = false) pre /\
       hitTest (cursorX inp) (cursorY inp) b = true /\
       g' = removeInvisible
              (set_bees (pre ++ set_visible false b :: post) (onHit b g2))).
Proof.
  intros Hp Hr HU. rewrite (Update_playing assets inp g Hp Hr) in HU.
  destruct (beforeClick assets inp _) as [g2 |] eqn:Hb; [| discriminate].
  injection HU as <-. exists g2. split; [reflexivity |].
  destruct (clickStep_cases inp g2)
    as [-> | (pre & b & post & Hj & Hs & Hpre & Hhit & ->)].
  - left. reflexivity.
  - right. exists pre, b, post. repeat split; auto.
Qed.

(** A press that finds a first answering bee, seen from [Update]. *)
Lemma Update_first_hit (assets : Assets) (inp : Input) (g g2 : Game)
      (pre post : list Bee) (b : Bee) :
  phase g = Playing ->
  0 < computedRemaining inp g ->
  justPressed inp = true ->
  beforeClick assets inp
    (set_remainingTime (computedRemaining inp g) g) = Some g2 ->
  bees g2 = pre ++ b :: post ->
  Forall (fun p => hitTest (cursorX inp) (cursorY inp) p = false) pre ->
  hitTest (cursorX inp) (cursorY inp) b = true ->
  Update assets inp g =
    Some (removeInvisible
            (set_bees (pre ++ set_visible false b :: post) (onHit b g2))).
Proof.
  intros Hp Hr Hj Hb Hs Hpre Hhit.
  rewrite (Update_playing assets inp g Hp Hr), Hb.
  unfold clickStep. rewrite Hj, Hs, clickLoop_first by assumption.
  reflexivity.
Qed.

(** Compaction keeps exactly the visible bees, in order. *)
Lemma removeInvisible_all_visible (g : Game) :
  Forall (fun b => visible b = true) (bees (removeInvisible g)).
Proof.
  unfold removeInvisible. simpl. apply Forall_forall.
  intros b Hb. apply filter_In in Hb. tauto.
Qed.

Lemma filter_length_le (bs : list Bee) :
  (length (filter visible bs) <= length bs)%nat.
Proof.
  induction bs as [| b rest IH]; simpl; [lia |].
  destruct (visible b); simpl; lia.
Qed.

(** ** Motion of one bee *)

(** Two floats that a computable observation tells apart are different. *)
Ltac floats_differ :=
  let H := fresh "H" in
  intro H; apply (f_equal Prim2SF) in H; vm_compute in H; discriminate H.

Lemma addRepeatedly_S (n : nat) (v p : float) :
  addRepeatedly (S n) v p = (addRepeatedly n v p + v)%float.
Proof. reflexivity. Qed.

(** A visible bee that meets no wall test moves by its velocity and keeps
    it. *)
Lemma moveBee_free (b : Bee) :
  visible b = true ->
  noWallHit b = true ->
  moveBee b =
    mkBee (x b + speedX b) (y b + speedY b) (speedX b) (speedY b)
          (width b) (height b) (isHornets b) (isHighSpeed b) true.
Proof.
  intros Hv Hn. unfold noWallHit in Hn.
  apply andb_true_iff in Hn. destruct Hn as [Hx Hy].
  apply negb_true_iff in Hx. apply negb_true_iff in Hy.
  unfold moveBee. rewrite Hv, Hx, Hy. reflexivity.
Qed.

(** [n] free ticks: the coordinates are the repeated sums and nothing else
    changes. *)
Lemma moveBee_iter_free (n : nat) (b : Bee) :
  visible b = true ->
  noWallHitFor n b = true ->
  Nat.iter n moveBee b =
    mkBee (addRepeatedly n (speedX b) (x b))
          (addRepeatedly n (speedY b) (y b))
          (speedX b) (speedY b)
          (width b) (height b) (isHornets b) (isHighSpeed b) true.
Proof.
  intros Hv. induction n as [| n IH]; intros Hn.
  - simpl. destruct b; simpl in *. subst. reflexivity.
  - simpl in Hn. apply andb_true_iff in Hn. destruct Hn as [Hn Hlast].
    specialize (IH Hn). change (Nat.iter (S n) moveBee b)
      with (moveBee (Nat.iter n moveBee b)).
    rewrite moveBee_free; [| rewrite IH; reflexivity | exact Hlast].
    rewrite IH. reflexivity.
Qed.

(** When no sum is rounded the repeated sum is the closed form. *)
Lemma addRepeatedly_exact (n : nat) (v p : float) :
  exactSums n v p = true ->
  (F64.toQ (addRepeatedly n v p)
   == F64.toQ p + inject_Z (Z.of_nat n) * F64.toQ v)%Q.
Proof.
  induction n as [| n IH]; intros He.
  - simpl. ring.
  - simpl in He. apply andb_true_iff in He. destruct He as [He Hlast].
    unfold F64.exactAdd in Hlast. apply andb_true_iff in Hlast.
    destruct Hlast as [_ Hlast]. apply Qeq_bool_iff in Hlast.
    rewrite addRepeatedly_S, Hlast, (IH He).
    rewrite Nat2Z.inj_succ. unfold Z.succ. rewrite inject_Z_plus. ring.
Qed.

(** ** Every tick, by cases *)

Lemma Update_cases (assets : Assets) (inp : Input) (g g' : Game) :
  Update assets inp g = Some g' ->
  (phase g = NotStarted /\
   (g' = g \/ g' = set_startTime (now inp) (set_gameStarted true g))) \/
  (phase g = Over /\ (g' = g \/ g' = resetGame inp g)) \/
  (phase g = Playing /\ computedRemaining inp g <= 0 /\
   g' = set_remainingTime 0 (set_gameOver true g)) \/
  (phase g = Playing /\ 0 < computedRemaining inp g /\
   exists g2,
     beforeClick assets inp
       (set_remainingTime (computedRemaining inp g) g) = Some g2 /\
     (g' = removeInvisible g2 \/
      exists pre b post,
        justPressed inp = true /\
        bees g2 = pre ++ b :: post /\
        Forall (fun p => hitTest (cursorX inp) (cursorY inp) p = false) pre /\
        hitTest (cursorX inp) (cursorY inp) b = true /\
        g' = removeInvisible
               (set_bees (pre ++ set_visible false b :: post)
                         (onHit b g2)))).
Proof.
  intros HU. destruct (phase g) eqn:Hp.
  - left. split; [reflexivity |].
    unfold phase in Hp. unfold Update in HU.
    destruct (gameStarted g); simpl in *.
    + destruct (gameOver g); discriminate.
    + destruct (justPressed inp); injection HU as <-; auto.
  - right. right.
    destruct (Z.le_gt_cases (computedRemaining inp g) 0) as [Hr | Hr].
    + left. rewrite (Update_timeout assets inp g Hp Hr) in HU.
      injection HU as <-. repeat split; auto.
    + right. repeat split; auto.
      apply Update_playing_cases; assumption.
  - right. left. split; [reflexivity |].
    apply phase_Over in Hp. destruct Hp as [Hs Ho].
    unfold Update in HU. rewrite Hs, Ho in HU. simpl in HU.
    destruct (justPressed inp); injection HU as <-; auto.
Qed.

(** ** No panic *)

Lemma Intn_positive (raw n : Z) : 0 < n -> Intn raw n = Some (raw mod n).
Proof.
  intros Hn. unfold Intn.
  destruct (Z.leb_spec n 0) as [Hle | _]; [lia | reflexivity].
Qed.

(** With sprites that fit the screen every tick returns a state. *)
Lemma Update_total (assets : Assets) (inp : Input) (g : Game) :
  fitsScreen (beeImage assets) ->
  fitsScreen (hornetsImage assets) ->
  exists g', Update assets inp g = Some g'.
Proof.
  intros [Hbw Hbh] [Hhw Hhh].
  assert (Hadd : forall g0, exists g1, addBee assets inp g0 = Some g1).
  { intros g0. unfold addBee.
    destruct (F64.lt (rollHornets inp) F64.c0_2);
      rewrite !Intn_positive by assumption; eexists; reflexivity. }
  assert (Hspawn : forall g0, exists g1, spawnStep assets inp g0 = Some g1).
  { intros g0. unfold spawnStep.
    destruct (_ && _); [apply Hadd | eexists; reflexivity]. }
  unfold Update.
  destruct (gameStarted g); simpl.
  - destruct (gameOver g).
    + destruct (justPressed inp); eexists; reflexivity.
    + destruct (_ <=? 0); [eexists; reflexivity |].
      unfold beforeClick.
      destruct (Hspawn (set_remainingTime (computedRemaining inp g) g))
        as [g1 ->].
      eexists; reflexivity.
  - destruct (justPressed inp); eexists; reflexivity.
Qed.

(** ** Runs *)

Lemma reachable_run (assets : Assets) (inps : list Input) (g g' : Game) :
  reachable assets g ->
  run assets inps g = Some g' ->
  reachable assets g'.
Proof.
  revert g. induction inps as [| inp rest IH]; intros g Hg Hrun; simpl in Hrun.
  - injection Hrun as <-. exact Hg.
  - destruct (Update assets inp g) as [g1 |] eqn:HU; [| discriminate].
    apply (IH g1); [| exact Hrun].
    eapply reachable_step; eassumption.
Qed.

Lemma afterTwoPenalties_reachable :
  reachable Sample.assets Sample.afterTwoPenalties.
Proof.
  apply (reachable_run Sample.assets Sample.twoPenalties NewGame).
  - apply reachable_new.
  - vm_compute. reflexivity.
Qed.

(** * The claims *)

(** ** Wall bounce *)

(** C1, as amended.  On every tick and for every visible bee, each velocity
    component is negated exactly once when the coordinate reached by the
    move is at or beyond a screen-edge bound of its axis ([<= 0], or
    [>=] the screen size less the bee's size), and is left as it is when
    that coordinate is strictly between the bounds.  The test reads the
    position, not whether a bound was crossed during the tick. *)
Theorem bounce_negates_once_when_at_wall (b : Bee) :
  visible b = true ->
  speedX (moveBee b) =
    (if atWall (x b + speedX b) screenWidth (width b)
     then - speedX b else speedX b)%float /\
  speedY (moveBee b) =
    (if atWall (y b + speedY b) screenHeight (height b)
     then - speedY b else speedY b)%float.
Proof.
  intros Hv. unfold moveBee. rewrite Hv. simpl. split; reflexivity.
Qed.

Lemma bounce_negates_once_when_at_wall_witness :
  visible Sample.stuck = true /\
  speedX (moveBee Sample.stuck) = 1%float /\
  speedY (moveBee Sample.stuck) = 0%float.
Proof.
  split; [reflexivity |].
  exact (bounce_negates_once_when_at_wall Sample.stuck eq_refl).
Defined.

(** C1 as stated fails.  A bee spawned on the left bound with velocity -1
    is reflected by its first tick and is then past the bound, at -1.  Its
    second tick crosses nothing (the bee is beyond the bound before the
    move and on it after), yet the same component is negated again. *)
Lemma bounce_repeats_without_crossing :
  option_map bees (run Sample.assets Sample.stuckSpawned NewGame)
    = Some [moveBee Sample.stuck] /\
  moveBee Sample.stuck = Sample.bee (-1) 300 1 0 false false /\
  crossesX (moveBee Sample.stuck) = false /\
  option_map bees
    (run Sample.assets (Sample.stuckSpawned ++ [Sample.idle 2]) NewGame)
    = Some [moveBee (moveBee Sample.stuck)] /\
  moveBee (moveBee Sample.stuck) = Sample.bee 0 300 (-1) 0 false false /\
  speedX (moveBee (moveBee Sample.stuck)) <> speedX (moveBee Sample.stuck).
Proof.
  repeat split; try (vm_compute; reflexivity).
  vm_compute. floats_differ.
Qed.

(** ** Free motion *)

(** C8, as amended.  For a visible bee and [n] ticks none of which meets a
    wall test, the velocity is unchanged and each coordinate is the
    initial one with the velocity component added [n] times, every sum
    rounded as a [float64] sum; when none of these sums is rounded, the
    coordinate is exactly the initial one plus [n] times the velocity. *)
Theorem free_motion_accumulates_velocity (n : nat) (b : Bee) :
  visible b = true ->
  noWallHitFor n b = true ->
  x (Nat.iter n moveBee b) = addRepeatedly n (speedX b) (x b) /\
  y (Nat.iter n moveBee b) = addRepeatedly n (speedY b) (y b) /\
  speedX (Nat.iter n moveBee b) = speedX b /\
  speedY (Nat.iter n moveBee b) = speedY b /\
  (exactSums n (speedX b) (x b) = true ->
   (F64.toQ (x (Nat.iter n moveBee b))
    == F64.toQ (x b) + inject_Z (Z.of_nat n) * F64.toQ (speedX b))%Q) /\
  (exactSums n (speedY b) (y b) = true ->
   (F64.toQ (y (Nat.iter n moveBee b))
    == F64.toQ (y b) + inject_Z (Z.of_nat n) * F64.toQ (speedY b))%Q).
Proof.
  intros Hv Hn. rewrite (moveBee_iter_free n b Hv Hn). simpl.
  repeat split; auto using addRepeatedly_exact.
Qed.

Lemma free_motion_accumulates_velocity_witness :
  visible Sample.gliding = true /\
  noWallHitFor 3 Sample.gliding = true /\
  x (Nat.iter 3 moveBee Sample.gliding) = 101.5%float /\
  speedX (Nat.iter 3 moveBee Sample.gliding) = 0.5%float /\
  (F64.toQ (x (Nat.iter 3 moveBee Sample.gliding))
   == F64.toQ (x Sample.gliding)
      + inject_Z 3 * F64.toQ (speedX Sample.gliding))%Q.
Proof.
  destruct (free_motion_accumulates_velocity 3 Sample.gliding eq_refl eq_refl)
    as (Hx & _ & Hs & _ & Hq & _).
  split; [reflexivity |]. split; [reflexivity |].
  split; [exact Hx |]. split; [exact Hs |].
  apply Hq. vm_compute. reflexivity.
Defined.

(** C8 as stated fails.  A bee spawned at 100 with the speed roll nearest
    to 0.55 meets no wall test in its first three ticks (the tick that
    spawns it and two more); it is then at 100.60000000000001, which is
    neither the [float64] value of [100 + 3 * velocity]
    (100.59999999999999) nor that sum taken exactly. *)
Lemma free_motion_is_not_linear :
  option_map bees (run Sample.assets Sample.driftingSpawned NewGame)
    = Some [Nat.iter 3 moveBee Sample.drifting] /\
  visible Sample.drifting = true /\
  noWallHitFor 3 Sample.drifting = true /\
  x (Nat.iter 3 moveBee Sample.drifting)
    <> (x Sample.drifting + F64.of_int 3 * speedX Sample.drifting)%float /\
  ~ (F64.toQ (x (Nat.iter 3 moveBee Sample.drifting))
     == F64.toQ (x Sample.drifting)
        + inject_Z 3 * F64.toQ (speedX Sample.drifting))%Q.
Proof.
  split; [vm_compute; reflexivity |].
  split; [reflexivity |]. split; [vm_compute; reflexivity |]. split.
  - vm_compute. floats_differ.
  - intros H. apply Qeq_bool_iff in H. vm_compute in H. discriminate H.
Qed.

(** ** The update step *)

Section UpdateStep.

Variable assets : Assets.

(** C2.  A press during the Playing phase whose first answering bee is
    [b] changes the score by exactly 1 when [b] is a normal bee, by
    exactly 3 when it is a high-speed bee, and not at all when it is a
    hornet (the score being far enough from the ends of [int]). *)
Theorem score_follows_kind_of_hit
        (inp : Input) (g g2 : Game) (pre post : list Bee) (b : Bee) :
  phase g = Playing ->
  0 < computedRemaining inp g ->
  justPressed inp = true ->
  beforeClick assets inp
    (set_remainingTime (computedRemaining inp g) g) = Some g2 ->
  bees g2 = pre ++ b :: post ->
  Forall (fun p => hitTest (cursorX inp) (cursorY inp) p = false) pre ->
  hitTest (cursorX inp) (cursorY inp) b = true ->
  GoInt.minInt <= score g ->
  score g + 3 <= GoInt.maxInt ->
  exists g',
    Update assets inp g = Some g' /\
    score g' =
      score g + (if isHornets b then 0 else if isHighSpeed b then 3 else 1).
Proof.
  intros Hp Hr Hj Hb Hs Hpre Hhit Hlo Hhi.
  eexists. split.
  - eapply Update_first_hit; eassumption.
  - apply beforeClick_frame in Hb. destruct Hb as (Hsc & _).
    simpl in Hsc. cbn [removeInvisible set_bees score].
    rewrite onHit_score, Hsc.
    destruct (isHornets b); [lia |].
    destruct (isHighSpeed b); apply add_small; lia.
Qed.

(** C7.  On a press during the Playing phase the bees are tested in
    slice order and only the first visible bee that holds the point is
    processed: it alone is hidden, booked and dropped by the compaction,
    and the bees before and after it are kept as they are, also those
    that hold the point; when no bee answers nothing is booked. *)
Theorem click_processes_first_match_only (inp : Input) (g g2 : Game) :
  phase g = Playing ->
  0 < computedRemaining inp g ->
  justPressed inp = true ->
  beforeClick assets inp
    (set_remainingTime (computedRemaining inp g) g) = Some g2 ->
  (forall pre b post,
      bees g2 = pre ++ b :: post ->
      Forall (fun p => hitTest (cursorX inp) (cursorY inp) p = false) pre ->
      hitTest (cursorX inp) (cursorY inp) b = true ->
      clickStep inp g2 =
        set_bees (pre ++ set_visible false b :: post) (onHit b g2) /\
      Update assets inp g =
        Some (set_bees (filter visible pre ++ filter visible post)
                       (onHit b g2))) /\
  (Forall (fun p => hitTest (cursorX inp) (cursorY inp) p = false) (bees g2) ->
   clickStep inp g2 = g2 /\
   Update assets inp g = Some (removeInvisible g2)).
Proof.
  intros Hp Hr Hj Hb. split.
  - intros pre b post Hs Hpre Hhit. split.
    + unfold clickStep. rewrite Hj, Hs, clickLoop_first by assumption.
      reflexivity.
    + rewrite (Update_first_hit assets inp g g2 pre post b) by assumption.
      unfold removeInvisible. cbn [bees set_bees].
      rewrite filter_app. simpl. reflexivity.
  - intros Hall.
    assert (Hc : clickStep inp g2 = g2).
    { unfold clickStep. rewrite Hj, clickLoop_miss by assumption.
      destruct g2; reflexivity. }
    split; [exact Hc |].
    rewrite (Update_playing assets inp g Hp Hr), Hb, Hc. reflexivity.
Qed.

(** C6.  In the Over phase a press resets the game: score and penalty
    counter 0, no bees, the remaining time back to the whole game time
    of 60 seconds, the effect flag off, the start time read anew from
    the clock, and the game playing again. *)
Theorem press_when_over_resets (inp : Input) (g : Game) :
  phase g = Over ->
  justPressed inp = true ->
  exists g',
    Update assets inp g = Some g' /\
    score g' = 0 /\
    hornetsClicked g' = 0 /\
    bees g' = [] /\
    remainingTime g' = gameTime /\ gameTime = 60 /\
    lightningEffect g' = false /\
    startTime g' = now inp /\
    phase g' = Playing.
Proof.
  intros Hp Hj. apply phase_Over in Hp. destruct Hp as [Hs Ho].
  unfold Update. rewrite Hs, Ho, Hj. simpl.
  eexists. split; [reflexivity |].
  unfold phase. simpl. rewrite Hs. repeat split.
Qed.

(** C10.  The playing tick on which the computed remaining time is not
    positive only sets the phase to Over and the remaining time to 0: it
    returns without moving, spawning or removing a bee, without handling
    a click, and leaves score, penalty counter and lightning effect
    (flag and timer) as they were. *)
Theorem timeout_tick_changes_nothing_else (inp : Input) (g : Game) :
  phase g = Playing ->
  computedRemaining inp g <= 0 ->
  Update assets inp g = Some (set_remainingTime 0 (set_gameOver true g)) /\
  bees (set_remainingTime 0 (set_gameOver true g)) = bees g /\
  score (set_remainingTime 0 (set_gameOver true g)) = score g /\
  hornetsClicked (set_remainingTime 0 (set_gameOver true g))
    = hornetsClicked g /\
  lightningEffect (set_remainingTime 0 (set_gameOver true g))
    = lightningEffect g /\
  lightningTimer (set_remainingTime 0 (set_gameOver true g))
    = lightningTimer g /\
  startTime (set_remainingTime 0 (set_gameOver true g)) = startTime g /\
  gameStarted (set_remainingTime 0 (set_gameOver true g)) = gameStarted g.
Proof.
  intros Hp Hr. split; [| repeat split].
  rewrite (Update_timeout assets inp g Hp Hr). reflexivity.
Qed.

(** C4.  A playing tick whose computed remaining time is not positive
    ends in the Over phase with the remaining time stored as 0, whatever
    the penalty counter; and no playing tick stores a negative remaining
    time. *)
Theorem timeout_forces_over (inp : Input) (g : Game) :
  phase g = Playing ->
  (computedRemaining inp g <= 0 ->
   exists g',
     Update assets inp g = Some g' /\
     phase g' = Over /\ remainingTime g' = 0) /\
  (forall g', Update assets inp g = Some g' -> 0 <= remainingTime g').
Proof.
  intros Hp. split.
  - intros Hr. rewrite (Update_timeout assets inp g Hp Hr).
    eexists. split; [reflexivity |].
    apply phase_Playing in Hp. destruct Hp as [Hs _].
    unfold phase. simpl. rewrite Hs. split; reflexivity.
  - intros g' HU.
    destruct (Z.le_gt_cases (computedRemaining inp g) 0) as [Hr | Hr].
    + rewrite (Update_timeout assets inp g Hp Hr) in HU.
      injection HU as <-. simpl. lia.
    + destruct (Update_playing_cases assets inp g g' Hp Hr HU)
        as (g2 & Hb & Hg').
      apply beforeClick_frame in Hb.
      destruct Hb as (_ & _ & _ & _ & _ & Hrem & _). simpl in Hrem.
      destruct Hg' as [-> | (pre & b & post & _ & _ & _ & _ & ->)].
      * simpl. lia.
      * cbn [removeInvisible set_bees remainingTime].
        destruct (onHit_frame b g2) as (_ & _ & _ & ->). lia.
Qed.

(** ** Invariants of the reachable states *)

Lemma penaltyInv_step (inp : Input) (g g' : Game) :
  penaltyInv g ->
  Update assets inp g = Some g' ->
  penaltyInv g' /\
  (phase g = Playing -> hornetsClicked g <= hornetsClicked g').
Proof.
  intros [Hrange Hthree] HU.
  destruct (Update_cases assets inp g g' HU)
    as [(Hp & Hg') | [(Hp & Hg') | [(Hp & Hr & ->) |
        (Hp & Hr & g2 & Hb & Hg')]]].
  - (* not started *)
    assert (Hne : hornetsClicked g <> 3)
      by (intros E; rewrite (Hthree E) in Hp; discriminate).
    split; [| rewrite Hp; discriminate].
    destruct Hg' as [-> | ->]; split; simpl; auto; intros E; contradiction.
  - (* over *)
    split; [| rewrite Hp; discriminate].
    destruct Hg' as [-> | ->]; [split; assumption |].
    split; simpl; [lia | discriminate].
  - (* the clock has run out *)
    split; [| simpl; lia].
    split; [exact Hrange |]. intros _.
    apply phase_Playing in Hp. destruct Hp as [Hs _].
    unfold phase. simpl. rewrite Hs. reflexivity.
  - (* a full playing tick *)
    assert (Hlt : hornetsClicked g <= 2).
    { destruct (Z.eq_dec (hornetsClicked g) 3) as [E | E]; [| lia].
      rewrite (Hthree E) in Hp. discriminate. }
    pose proof Hp as Hp'. apply phase_Playing in Hp'.
    destruct Hp' as [Hs Ho].
    apply beforeClick_frame in Hb.
    destruct Hb as (_ & Hh & Hov & Hst & _). simpl in Hh, Hov, Hst.
    destruct Hg' as [-> | (pre & b & post & _ & _ & _ & _ & ->)].
    + unfold penaltyInv.
      cbn [removeInvisible set_bees hornetsClicked]. rewrite Hh.
      split; [| lia]. split; [lia |]. intros E. lia.
    + unfold penaltyInv, phase.
      cbn [removeInvisible set_bees hornetsClicked gameOver gameStarted].
      destruct (onHit_frame b g2) as (_ & -> & _).
      rewrite onHit_hornetsClicked, onHit_gameOver, Hh, Hov, Hst, Hs, Ho.
      destruct (isHornets b); simpl.
      * unfold GoInt.add. rewrite wrap_inRange
          by (unfold GoInt.inRange, GoInt.minInt, GoInt.maxInt; lia).
        split; [| lia]. split; [lia |]. intros E.
        destruct (Z.leb_spec 3 (hornetsClicked g + 1)); [reflexivity | lia].
      * split; [| lia]. split; [lia |]. intros E. lia.
Qed.

Lemma penaltyInv_reachable (g : Game) :
  reachable assets g -> penaltyInv g.
Proof.
  induction 1 as [| inp g g' _ IH HU].
  - split; simpl; [lia | discriminate].
  - exact (proj1 (penaltyInv_step inp g g' IH HU)).
Qed.

(** C3.  In every reachable state the penalty counter is between 0 and 3;
    a tick taken in the Playing phase never lowers it; and the tick on
    which it reaches 3 leaves the game in the Over phase. *)
Theorem penalty_counter_bounded_and_monotone (g : Game) :
  reachable assets g ->
  0 <= hornetsClicked g <= 3 /\
  (hornetsClicked g = 3 -> phase g = Over) /\
  (forall inp g',
      phase g = Playing ->
      Update assets inp g = Some g' ->
      hornetsClicked g <= hornetsClicked g' /\
      (hornetsClicked g' = 3 -> phase g' = Over)).
Proof.
  intros Hg. pose proof (penaltyInv_reachable g Hg) as Hinv.
  destruct Hinv as [Hrange Hthree]. repeat split; try tauto.
  - intros. eapply penaltyInv_step; eauto. split; assumption.
  - intros E. eapply penaltyInv_step; eauto. split; assumption.
Qed.

(** One tick: the slice grows by at most one bee, and only from below
    the cap. *)
Lemma Update_length (inp : Input) (g g' : Game) :
  Update assets inp g = Some g' ->
  (length (bees g') <= length (bees g))%nat \/
  ((length (bees g) < 10)%nat /\
   (length (bees g') <= S (length (bees g)))%nat).
Proof.
  intros HU.
  destruct (Update_cases assets inp g g' HU)
    as [(_ & Hg') | [(_ & Hg') | [(_ & _ & ->) |
        (_ & _ & g2 & Hb & Hg')]]].
  - left. destruct Hg' as [-> | ->]; simpl; lia.
  - left. destruct Hg' as [-> | ->]; simpl; lia.
  - left. simpl. lia.
  - assert (Hlen : (length (bees g') <= length (bees g2))%nat).
    { destruct Hg' as [-> | (pre & b & post & _ & Hs & _ & _ & ->)].
      - apply filter_length_le.
      - cbn [removeInvisible set_bees bees].
        etransitivity; [apply filter_length_le |].
        rewrite Hs, !length_app. simpl. lia. }
    apply beforeClick_frame in Hb.
    destruct Hb as (_ & _ & _ & _ & _ & _ & [Hm | (Hlt & b & _ & Hm)]);
      simpl in *.
    + left. rewrite Hm, length_map in Hlen. exact Hlen.
    + right. split; [exact Hlt |].
      rewrite Hm, length_map, length_app in Hlen. simpl in Hlen. lia.
Qed.

(** C5.  The spawn block adds at most one bee per tick and only while the
    slice holds fewer than 10; hence no tick grows the slice by more than
    one bee or from 10 up, and no reachable state holds more than 10. *)
Theorem spawn_respects_cap (g : Game) :
  reachable assets g ->
  (length (bees g) <= 10)%nat /\
  (forall inp g1,
      spawnStep assets inp g = Some g1 ->
      g1 = g \/
      ((length (bees g) < 10)%nat /\
       exists b, g1 = set_bees (bees g ++ [b]) g)) /\
  (forall inp g',
      Update assets inp g = Some g' ->
      (length (bees g') <= S (length (bees g)))%nat /\
      ((length (bees g) < length (bees g'))%nat ->
       (length (bees g) < 10)%nat) /\
      (length (bees g') <= 10)%nat).
Proof.
  intros Hg.
  assert (Hcap : (length (bees g) <= 10)%nat).
  { induction Hg as [| inp g g' _ IH HU]; [simpl; lia |].
    destruct (Update_length inp g g' HU) as [H | [H1 H2]]; lia. }
  split; [exact Hcap |]. split.
  - intros inp g1 Hs. apply spawnStep_cases in Hs.
    destruct Hs as [-> | (Hlt & b & _ & ->)]; [left; reflexivity |].
    right. split; [exact Hlt |]. exists b. reflexivity.
  - intros inp g' HU.
    destruct (Update_length inp g g' HU) as [H | [H1 H2]]; lia.
Qed.

(** Every tick ends with visible bees only, when it began so. *)
Lemma all_visible_step (inp : Input) (g g' : Game) :
  Forall (fun b => visible b = true) (bees g) ->
  Update assets inp g = Some g' ->
  Forall (fun b => visible b = true) (bees g').
Proof.
  intros Hall HU.
  destruct (Update_cases assets inp g g' HU)
    as [(_ & Hg') | [(_ & Hg') | [(_ & _ & ->) |
        (_ & _ & g2 & _ & Hg')]]].
  - destruct Hg' as [-> | ->]; exact Hall.
  - destruct Hg' as [-> | ->]; [exact Hall | constructor].
  - exact Hall.
  - destruct Hg' as [-> | (pre & b & post & _ & _ & _ & _ & ->)];
      apply removeInvisible_all_visible.
Qed.

Lemma filter_all_visible (bs : list Bee) :
  Forall (fun b => visible b = true) bs -> filter visible bs = bs.
Proof.
  induction 1 as [| b rest Hb _ IH]; simpl; [reflexivity |].
  rewrite Hb, IH. reflexivity.
Qed.

(** Spawning and moving hide no bee. *)
Lemma beforeClick_all_visible (inp : Input) (g1 g2 : Game) :
  Forall (fun b => visible b = true) (bees g1) ->
  beforeClick assets inp g1 = Some g2 ->
  Forall (fun b => visible b = true) (bees g2).
Proof.
  intros Hall Hb. apply beforeClick_frame in Hb.
  destruct Hb as (_ & _ & _ & _ & _ & _ & [-> | (_ & b & Hv & ->)]);
    apply Forall_map; [| apply Forall_app; split; [| repeat constructor]];
    try (eapply Forall_impl; [| exact Hall]; simpl; intros c Hc);
    rewrite moveBee_visible; assumption.
Qed.

(** C9.  At every tick boundary all the bees of the slice are visible: a
    bee hidden by a click is dropped by the compaction of the same tick,
    which keeps the others, in order. *)
Theorem bees_between_ticks_are_visible (g : Game) :
  reachable assets g ->
  Forall (fun b => visible b = true) (bees g) /\
  (forall inp g',
      Update assets inp g = Some g' ->
      Forall (fun b => visible b = true) (bees g')) /\
  (forall inp g2 pre b post,
      phase g = Playing ->
      0 < computedRemaining inp g ->
      justPressed inp = true ->
      beforeClick assets inp
        (set_remainingTime (computedRemaining inp g) g) = Some g2 ->
      bees g2 = pre ++ b :: post ->
      Forall (fun p => hitTest (cursorX inp) (cursorY inp) p = false) pre ->
      hitTest (cursorX inp) (cursorY inp) b = true ->
      exists g', Update assets inp g = Some g' /\ bees g' = pre ++ post).
Proof.
  intros Hg.
  assert (Hall : Forall (fun b => visible b = true) (bees g)).
  { induction Hg as [| inp g g' _ IH HU]; [constructor |].
    eapply all_visible_step; eassumption. }
  split; [exact Hall |]. split.
  - intros inp g' HU. eapply all_visible_step; eassumption.
  - intros inp g2 pre b post Hp Hr Hj Hb Hs Hpre Hhit.
    eexists. split; [eapply Update_first_hit; eassumption |].
    cbn [removeInvisible set_bees bees].
    pose proof (beforeClick_all_visible inp
                  (set_remainingTime (computedRemaining inp g) g) g2 Hall Hb)
      as Hv.
    rewrite Hs in Hv. apply Forall_app in Hv. destruct Hv as [Hvpre Hvpost].
    apply Forall_cons_iff in Hvpost. destruct Hvpost as [_ Hvpost].
    rewrite filter_app. simpl.
    rewrite !filter_all_visible by assumption. reflexivity.
Qed.

End UpdateStep.

(** ** The claims on sample games *)

Lemma score_follows_kind_of_hit_witness :
  hitTest 110 310 Sample.frontBee = true /\
  isHornets Sample.frontBee = false /\
  isHighSpeed Sample.frontBee = false /\
  exists g',
    Update Sample.assets (Sample.press 2 110 310) Sample.twoBees = Some g' /\
    score g' = score Sample.twoBees + 1.
Proof.
  repeat (split; [reflexivity |]).
  apply (score_follows_kind_of_hit Sample.assets
           (Sample.press 2 110 310) Sample.twoBees
           (set_bees [Sample.frontBee; Sample.backBee]
                     (set_remainingTime 58 Sample.twoBees))
           [] [Sample.backBee] Sample.frontBee).
  - reflexivity.
  - vm_compute. reflexivity.
  - reflexivity.
  - vm_compute. reflexivity.
  - reflexivity.
  - constructor.
  - vm_compute. reflexivity.
  - vm_compute. discriminate.
  - vm_compute. discriminate.
Defined.

Lemma click_processes_first_match_only_witness :
  hitTest 110 310 Sample.frontBee = true /\
  hitTest 110 310 Sample.backBee = true /\
  Update Sample.assets (Sample.press 2 110 310) Sample.twoBees =
    Some (set_bees [Sample.backBee]
            (set_score 6 (set_remainingTime 58 Sample.twoBees))).
Proof.
  split; [vm_compute; reflexivity |]. split; [vm_compute; reflexivity |].
  destruct (click_processes_first_match_only Sample.assets
              (Sample.press 2 110 310) Sample.twoBees
              (set_bees [Sample.frontBee; Sample.backBee]
                        (set_remainingTime 58 Sample.twoBees)))
    as [Hhit _].
  - reflexivity.
  - vm_compute. reflexivity.
  - reflexivity.
  - vm_compute. reflexivity.
  - destruct (Hhit [] Sample.frontBee [Sample.backBee]) as [_ HU].
    + reflexivity.
    + constructor.
    + vm_compute. reflexivity.
    + rewrite HU. vm_compute. reflexivity.
Defined.

Lemma press_when_over_resets_witness :
  exists g',
    Update Sample.assets (Sample.press 100 5 5)
           (Sample.finished [Sample.backBee] 7 3) = Some g' /\
    score g' = 0 /\
    hornetsClicked g' = 0 /\
    bees g' = [] /\
    remainingTime g' = gameTime /\ gameTime = 60 /\
    lightningEffect g' = false /\
    startTime g' = now (Sample.press 100 5 5) /\
    phase g' = Playing.
Proof.
  apply (press_when_over_resets Sample.assets (Sample.press 100 5 5)
           (Sample.finished [Sample.backBee] 7 3)); reflexivity.
Defined.

Lemma timeout_tick_changes_nothing_else_witness :
  computedRemaining (Sample.press 61 110 310) Sample.twoBees = -1 /\
  Update Sample.assets (Sample.press 61 110 310) Sample.twoBees =
    Some (set_remainingTime 0 (set_gameOver true Sample.twoBees)).
Proof.
  split; [vm_compute; reflexivity |].
  apply (timeout_tick_changes_nothing_else Sample.assets
           (Sample.press 61 110 310) Sample.twoBees).
  - reflexivity.
  - vm_compute. discriminate.
Defined.

Lemma timeout_forces_over_witness :
  hornetsClicked Sample.twoBees = 1 /\
  exists g',
    Update Sample.assets (Sample.idle 60) Sample.twoBees = Some g' /\
    phase g' = Over /\ remainingTime g' = 0.
Proof.
  split; [reflexivity |].
  apply (timeout_forces_over Sample.assets (Sample.idle 60) Sample.twoBees).
  - reflexivity.
  - vm_compute. discriminate.
Defined.

Lemma penalty_counter_bounded_and_monotone_witness :
  hornetsClicked Sample.afterTwoPenalties = 2 /\
  forall g',
    Update Sample.assets (Sample.press 6 310 310) Sample.afterTwoPenalties
      = Some g' ->
    hornetsClicked Sample.afterTwoPenalties <= hornetsClicked g' /\
    (hornetsClicked g' = 3 -> phase g' = Over).
Proof.
  split; [reflexivity |]. intros g' HU.
  destruct (penalty_counter_bounded_and_monotone Sample.assets
              Sample.afterTwoPenalties afterTwoPenalties_reachable)
    as (_ & _ & Hstep).
  apply (Hstep (Sample.press 6 310 310) g'); [reflexivity | exact HU].
Defined.

Lemma spawn_respects_cap_witness :
  (length (bees Sample.afterTwoPenalties) <= 10)%nat /\
  forall g',
    Update Sample.assets (Sample.spawnHornet 6 400 300)
           Sample.afterTwoPenalties = Some g' ->
    (length (bees g') <= 10)%nat.
Proof.
  destruct (spawn_respects_cap Sample.assets
              Sample.afterTwoPenalties afterTwoPenalties_reachable)
    as (Hcap & _ & Hstep).
  split; [exact Hcap |]. intros g' HU.
  apply (Hstep (Sample.spawnHornet 6 400 300) g' HU).
Defined.

Lemma bees_between_ticks_are_visible_witness :
  Forall (fun b => visible b = true) (bees Sample.afterTwoPenalties).
Proof.
  apply (bees_between_ticks_are_visible Sample.assets
           Sample.afterTwoPenalties afterTwoPenalties_reachable).
Defined.

(** * Further properties of the update step *)

Section Phases.

Variable assets : Assets.

Lemma phase_NotStarted (g : Game) :
  phase g = NotStarted <-> gameStarted g = false.
Proof.
  unfold phase. destruct (gameStarted g), (gameOver g); simpl;
    split; intros H; try discriminate; reflexivity.
Qed.

(** A started game stays started. *)
Lemma Update_keeps_started (inp : Input) (g g' : Game) :
  gameStarted g = true ->
  Update assets inp g = Some g' ->
  gameStarted g' = true.
Proof.
  intros Hs HU.
  destruct (Update_cases assets inp g g' HU)
    as [(Hp & _) | [(_ & Hg') | [(_ & _ & ->) |
        (_ & _ & g2 & Hb & Hg')]]].
  - apply phase_NotStarted in Hp. congruence.
  - destruct Hg' as [-> | ->]; exact Hs.
  - exact Hs.
  - apply beforeClick_frame in Hb. destruct Hb as (_ & _ & _ & Hst & _).
    simpl in Hst.
    destruct Hg' as [-> | (pre & b & post & _ & _ & _ & _ & ->)].
    + simpl. congruence.
    + cbn [removeInvisible set_bees gameStarted].
      destruct (onHit_frame b g2) as (_ & -> & _). congruence.
Qed.

Lemma reachable_not_started (g : Game) :
  reachable assets g ->
  phase g = NotStarted ->
  g = NewGame.
Proof.
  induction 1 as [| inp g g' Hg IH HU]; intros Hp; [reflexivity |].
  apply phase_NotStarted in Hp.
  destruct (gameStarted g) eqn:Hs.
  - rewrite (Update_keeps_started inp g g' Hs HU) in Hp. discriminate.
  - specialize (IH (proj2 (phase_NotStarted g) Hs)). subst g.
    unfold Update in HU. simpl in HU.
    destruct (justPressed inp); injection HU as <-;
      [discriminate | reflexivity].
Qed.

(** X1.  Until the first press nothing happens: the only reachable state
    of the NotStarted phase is the one [NewGame] builds. *)
Theorem not_started_is_new_game (g : Game) :
  reachable assets g ->
  phase g = NotStarted ->
  g = NewGame.
Proof. apply reachable_not_started. Qed.

(** X2.  Once it has left the NotStarted phase, a game never comes back
    to it, whatever the inputs. *)
Theorem never_back_to_not_started (inps : list Input) (g g' : Game) :
  phase g <> NotStarted ->
  run assets inps g = Some g' ->
  phase g' <> NotStarted.
Proof.
  revert g. induction inps as [| inp rest IH]; intros g Hp Hrun;
    simpl in Hrun.
  - injection Hrun as <-. exact Hp.
  - destruct (Update assets inp g) as [g1 |] eqn:HU; [| discriminate].
    apply (IH g1); [| exact Hrun].
    rewrite phase_NotStarted in *.
    destruct (gameStarted g) eqn:Hs; [| congruence].
    rewrite (Update_keeps_started inp g g1 Hs HU). discriminate.
Qed.

(** X3.  Outside the Playing phase the game is frozen: as long as the
    button is not pressed, ticks leave the whole state as it is (no bee
    moves, no timer runs, the clock is not read). *)
Theorem frozen_until_press (inps : list Input) (g : Game) :
  phase g <> Playing ->
  Forall (fun inp => justPressed inp = false) inps ->
  run assets inps g = Some g.
Proof.
  intros Hp Hall. induction Hall as [| inp rest Hj _ IH]; [reflexivity |].
  simpl.
  assert (HU : Update assets inp g = Some g).
  { unfold Update. rewrite Hj.
    destruct (gameStarted g) eqn:Hs; simpl; [| reflexivity].
    destruct (gameOver g) eqn:Ho; [reflexivity |].
    exfalso. apply Hp. apply phase_Playing. split; assumption. }
  rewrite HU. exact IH.
Qed.

Lemma playing_tick_over_iff (inp : Input) (g g' : Game) :
  reachable assets g ->
  phase g = Playing ->
  Update assets inp g = Some g' ->
  (phase g' = Over <->
   computedRemaining inp g <= 0 \/ hornetsClicked g' = 3).
Proof.
  intros Hg Hp HU.
  destruct (penaltyInv_reachable assets g Hg) as [Hrange Hthree].
  assert (Hlt : hornetsClicked g <= 2).
  { destruct (Z.eq_dec (hornetsClicked g) 3) as [E | E]; [| lia].
    rewrite (Hthree E) in Hp. discriminate. }
  pose proof Hp as Hp'. apply phase_Playing in Hp'. destruct Hp' as [Hs Ho].
  destruct (Z.le_gt_cases (computedRemaining inp g) 0) as [Hr | Hr].
  - rewrite (Update_timeout assets inp g Hp Hr) in HU. injection HU as <-.
    split; [auto |]. intros _. unfold phase. simpl. rewrite Hs. reflexivity.
  - destruct (Update_playing_cases assets inp g g' Hp Hr HU)
      as (g2 & Hb & Hg').
    apply beforeClick_frame in Hb.
    destruct Hb as (_ & Hh & Hov & Hst & _). simpl in Hh, Hov, Hst.
    destruct Hg' as [-> | (pre & b & post & _ & _ & _ & _ & ->)];
      unfold phase;
      cbn [removeInvisible set_bees hornetsClicked gameOver gameStarted].
    + rewrite Hh, Hov, Hst, Hs, Ho. simpl.
      split; [discriminate | intros [H | H]; lia].
    + destruct (onHit_frame b g2) as (_ & -> & _).
      rewrite onHit_hornetsClicked, onHit_gameOver, Hh, Hov, Hst, Hs, Ho.
      simpl. destruct (isHornets b); simpl.
      * unfold GoInt.add. rewrite wrap_inRange
          by (unfold GoInt.inRange, GoInt.minInt, GoInt.maxInt; lia).
        destruct (Z.leb_spec 3 (hornetsClicked g + 1)).
        -- split; [intros _; right; lia | reflexivity].
        -- split; [discriminate | intros [H' | H']; lia].
      * split; [discriminate | intros [H' | H']; lia].
Qed.

(** X4.  A tick taken in the Playing phase of a reachable game ends the
    game exactly when the clock has run out or the penalty counter stands
    at 3 after it. *)
Theorem game_ends_by_clock_or_third_hornet (inp : Input) (g g' : Game) :
  reachable assets g ->
  phase g = Playing ->
  Update assets inp g = Some g' ->
  (phase g' = Over <->
   computedRemaining inp g <= 0 \/ hornetsClicked g' = 3).
Proof. apply playing_tick_over_iff. Qed.

(** The remaining time is positive until the game is over, and a game
    that is over shows three hornets or no time left. *)
Lemma clockInv_reachable (g : Game) :
  reachable assets g -> clockInv g.
Proof.
  induction 1 as [| inp g g' Hg IH HU].
  - unfold clockInv, phase. simpl. unfold gameTime.
    split; [lia |]. split; [lia | discriminate].
  - destruct IH as (Hnn & Hpos & Hover).
    destruct (Update_cases assets inp g g' HU)
      as [(Hp & Hg') | [(Hp & Hg') | [(Hp & Hr & ->) |
          (Hp & Hr & g2 & Hb & Hg')]]].
    + rewrite (reachable_not_started g Hg Hp) in *.
      destruct Hg' as [-> | ->]; unfold clockInv, phase; simpl;
        unfold gameTime; (split; [lia |]; split; [lia | discriminate]).
    + destruct Hg' as [-> | ->]; [repeat split; assumption |].
      pose proof Hp as Hq. apply phase_Over in Hq. destruct Hq as [Hs _].
      unfold clockInv, phase. simpl. rewrite Hs. simpl. unfold gameTime.
      split; [lia |]. split; [lia | discriminate].
    + pose proof Hp as Hq. apply phase_Playing in Hq. destruct Hq as [Hs _].
      unfold clockInv, phase. simpl. rewrite Hs. simpl.
      split; [lia |]. split; [intros H; contradiction | auto].
    + assert (Hrem : remainingTime g' = computedRemaining inp g).
      { apply beforeClick_frame in Hb.
        destruct Hb as (_ & _ & _ & _ & _ & Hrem & _). simpl in Hrem.
        destruct Hg' as [-> | (pre & b & post & _ & _ & _ & _ & ->)].
        - simpl. exact Hrem.
        - cbn [removeInvisible set_bees remainingTime].
          destruct (onHit_frame b g2) as (_ & _ & _ & ->). exact Hrem. }
      unfold clockInv. rewrite Hrem.
      split; [lia |]. split; [lia |]. intros Hov.
      apply (playing_tick_over_iff inp g g' Hg Hp HU) in Hov.
      destruct Hov as [Hov | Hov]; [lia | left; exact Hov].
Qed.

(** X14.  In every reachable state the remaining time is not negative; it
    is positive as long as the game is not over; and a game that is over
    shows either a penalty counter of 3 or a remaining time of 0. *)
Theorem clock_and_penalties_explain_game_over (g : Game) :
  reachable assets g ->
  0 <= remainingTime g /\
  (phase g <> Over -> 0 < remainingTime g) /\
  (phase g = Over -> hornetsClicked g = 3 \/ remainingTime g = 0).
Proof. apply clockInv_reachable. Qed.

End Phases.

Section Hits.

Variable assets : Assets.

Lemma reachable_all_visible (g : Game) :
  reachable assets g -> Forall (fun b => visible b = true) (bees g).
Proof.
  induction 1 as [| inp g g' _ IH HU]; [constructor |].
  eapply all_visible_step; eassumption.
Qed.

(** X5.  In a reachable game, a press whose first answering bee is a
    hornet adds exactly one to the penalty counter and arms the lightning
    effect with 30 ticks to run; when that bee is not a hornet the
    penalty counter, the effect and the phase are left as they were. *)
Theorem hit_books_penalty_and_lightning
        (inp : Input) (g g2 : Game) (pre post : list Bee) (b : Bee) :
  reachable assets g ->
  phase g = Playing ->
  0 < computedRemaining inp g ->
  justPressed inp = true ->
  beforeClick assets inp
    (set_remainingTime (computedRemaining inp g) g) = Some g2 ->
  bees g2 = pre ++ b :: post ->
  Forall (fun p => hitTest (cursorX inp) (cursorY inp) p = false) pre ->
  hitTest (cursorX inp) (cursorY inp) b = true ->
  exists g',
    Update assets inp g = Some g' /\
    (isHornets b = true ->
     hornetsClicked g' = hornetsClicked g + 1 /\
     lightningEffect g' = true /\ lightningTimer g' = 30) /\
    (isHornets b = false ->
     hornetsClicked g' = hornetsClicked g /\
     lightningEffect g' = lightningEffect g2 /\
     lightningTimer g' = lightningTimer g2 /\
     phase g' = Playing).
Proof.
  intros Hg Hp Hr Hj Hb Hs Hpre Hhit.
  destruct (penaltyInv_reachable assets g Hg) as [Hrange Hthree].
  assert (Hlt : hornetsClicked g <= 2).
  { destruct (Z.eq_dec (hornetsClicked g) 3) as [E | E]; [| lia].
    rewrite (Hthree E) in Hp. discriminate. }
  eexists. split; [eapply Update_first_hit; eassumption |].
  apply phase_Playing in Hp. destruct Hp as [Hst Ho].
  apply beforeClick_frame in Hb.
  destruct Hb as (_ & Hh & Hov & Hst2 & _). simpl in Hh, Hov, Hst2.
  unfold phase.
  cbn [removeInvisible set_bees hornetsClicked gameOver gameStarted
       lightningEffect lightningTimer].
  unfold onHit. split; intros Hk; rewrite Hk.
  - rewrite Hh. unfold GoInt.add. rewrite wrap_inRange
      by (unfold GoInt.inRange, GoInt.minInt, GoInt.maxInt; lia).
    simpl. destruct (3 <=? hornetsClicked g + 1); repeat split; reflexivity.
  - destruct (isHighSpeed b); simpl; rewrite Hh, Hov, Hst2, Hst, Ho;
      repeat split; reflexivity.
Qed.

(** X6.  A full playing tick of a reachable game moves every bee of the
    slice, in order, after at most one bee spawned at the end, and drops
    at most one of them, which only a press can do; every other bee
    survives the tick. *)
Theorem tick_moves_all_and_drops_at_most_one (inp : Input) (g g' : Game) :
  reachable assets g ->
  phase g = Playing ->
  0 < computedRemaining inp g ->
  Update assets inp g = Some g' ->
  exists spawned pre hit post,
    (length spawned <= 1)%nat /\
    (length hit <= 1)%nat /\
    (justPressed inp = false -> hit = []) /\
    map moveBee (bees g ++ spawned) = pre ++ hit ++ post /\
    bees g' = pre ++ post.
Proof.
  intros Hg Hp Hr HU.
  pose proof (reachable_all_visible g Hg) as Hall.
  destruct (Update_playing_cases assets inp g g' Hp Hr HU) as (g2 & Hb & Hg').
  pose proof (beforeClick_all_visible assets inp
                (set_remainingTime (computedRemaining inp g) g) g2 Hall Hb)
    as Hv.
  apply beforeClick_frame in Hb.
  destruct Hb as (_ & _ & _ & _ & _ & _ & Hbees). simpl in Hbees.
  assert (Hsp : exists spawned,
             (length spawned <= 1)%nat /\
             bees g2 = map moveBee (bees g ++ spawned)).
  { destruct Hbees as [Hm | (_ & b & _ & Hm)].
    - exists []. rewrite app_nil_r. split; [simpl; lia | exact Hm].
    - exists [b]. split; [simpl; lia | exact Hm]. }
  destruct Hsp as (spawned & Hlen & Hm). exists spawned.
  destruct Hg' as [-> | (pre & b & post & Hj & Hs & _ & _ & ->)].
  - exists (bees g2), [], []. rewrite !app_nil_r.
    split; [exact Hlen |]. split; [simpl; lia |].
    split; [reflexivity |]. split; [symmetry; exact Hm |].
    simpl. apply filter_all_visible. exact Hv.
  - exists pre, [b], post.
    split; [exact Hlen |]. split; [simpl; lia |].
    split; [intros Hn; congruence |].
    split; [rewrite <- Hm; exact Hs |].
    + cbn [removeInvisible set_bees bees].
      rewrite Hs in Hv. apply Forall_app in Hv. destruct Hv as [Hvpre Hvpost].
      apply Forall_cons_iff in Hvpost. destruct Hvpost as [_ Hvpost].
      rewrite filter_app. simpl.
      rewrite !filter_all_visible by assumption. reflexivity.
Qed.

(** The score across one tick. *)
Lemma Update_score (inp : Input) (g g' : Game) :
  0 <= score g ->
  score g + 3 <= GoInt.maxInt ->
  Update assets inp g = Some g' ->
  0 <= score g' <= score g + 3 /\
  (phase g = Playing -> score g <= score g') /\
  (justPressed inp = false -> score g' = score g).
Proof.
  intros Hlo Hhi HU.
  destruct (Update_cases assets inp g g' HU)
    as [(Hp & Hg') | [(Hp & Hg') | [(Hp & _ & ->) |
        (Hp & _ & g2 & Hb & Hg')]]].
  - destruct Hg' as [-> | ->]; simpl; repeat split; auto; lia.
  - clear Hg'. pose proof Hp as Hq. apply phase_Over in Hq.
    destruct Hq as [Hs Ho]. unfold Update in HU.
    rewrite Hs, Ho in HU. simpl in HU.
    destruct (justPressed inp); injection HU as <-; simpl;
      (split; [lia |]; split; [rewrite Hp; discriminate |]);
      [discriminate | reflexivity].
  - simpl. repeat split; auto; lia.
  - apply beforeClick_frame in Hb. destruct Hb as (Hsc & _). simpl in Hsc.
    destruct Hg' as [-> | (pre & b & post & Hj & _ & _ & _ & ->)].
    + simpl. rewrite Hsc. repeat split; auto; lia.
    + cbn [removeInvisible set_bees score]. rewrite onHit_score, Hsc.
      assert (Hadd : forall k, 0 <= k <= 3 ->
                 GoInt.add (score g) k = score g + k).
      { intros k Hk. apply add_small. unfold GoInt.minInt. lia. }
      destruct (isHornets b); [| destruct (isHighSpeed b)];
        try rewrite Hadd by lia;
        (split; [lia |]; split; [lia | intros Hn; congruence]).
Qed.

(** X7.  One tick changes a non-negative score by at most 3 and keeps it
    non-negative; a tick in the Playing phase never lowers it, and a tick
    without a press leaves it as it is (the score being at least 3 below
    the top of [int]). *)
Theorem score_moves_by_at_most_three (inp : Input) (g g' : Game) :
  0 <= score g ->
  score g + 3 <= GoInt.maxInt ->
  Update assets inp g = Some g' ->
  0 <= score g' <= score g + 3 /\
  (phase g = Playing -> score g <= score g') /\
  (justPressed inp = false -> score g' = score g).
Proof. apply Update_score. Qed.

(** X8.  Along any sequence of ticks from a new game the score stays
    between 0 and three times the number of ticks (that bound being within
    [int]). *)
Theorem score_bounded_along_runs (inps : list Input) (g : Game) :
  3 * Z.of_nat (length inps) <= GoInt.maxInt ->
  run assets inps NewGame = Some g ->
  0 <= score g <= 3 * Z.of_nat (length inps).
Proof.
  assert (Hgen : forall l g0 g1 base,
             0 <= score g0 <= base ->
             base + 3 * Z.of_nat (length l) <= GoInt.maxInt ->
             run assets l g0 = Some g1 ->
             0 <= score g1 <= base + 3 * Z.of_nat (length l)).
  { induction l as [| inp rest IH]; intros g0 g1 base Hs Hb Hrun;
      simpl in Hrun.
    - injection Hrun as <-. simpl. lia.
    - destruct (Update assets inp g0) as [g2 |] eqn:HU; [| discriminate].
      simpl length in *. rewrite Nat2Z.inj_succ in *.
      destruct (Update_score inp g0 g2) as [Hstep _];
        [lia | lia | exact HU |].
      specialize (IH g2 g1 (base + 3)).
      assert (0 <= score g1 <= base + 3 + 3 * Z.of_nat (length rest))
        by (apply IH; [lia | lia | exact Hrun]).
      lia. }
  intros Hb Hrun.
  assert (0 <= score g <= 0 + 3 * Z.of_nat (length inps)).
  { apply (Hgen inps NewGame g 0); [simpl; lia | lia | exact Hrun]. }
  lia.
Qed.

End Hits.

Section Lightning.

Variable assets : Assets.

Lemma sub_one_small (n : Z) :
  1 <= n <= GoInt.maxInt -> GoInt.sub n 1 = n - 1.
Proof.
  intros H. apply wrap_inRange.
  unfold GoInt.inRange, GoInt.minInt, GoInt.maxInt in *. lia.
Qed.

(** One run of the lightning block on an armed effect. *)
Lemma lightningStep_armed (g : Game) :
  lightningEffect g = true ->
  1 <= lightningTimer g <= GoInt.maxInt ->
  lightningTimer (lightningStep g) = lightningTimer g - 1 /\
  lightningEffect (lightningStep g) = (1 <? lightningTimer g).
Proof.
  intros He Ht. unfold lightningStep. rewrite He. simpl.
  rewrite sub_one_small by exact Ht.
  destruct (Z.leb_spec (lightningTimer g - 1) 0);
    destruct (Z.ltb_spec 1 (lightningTimer g)); simpl; try lia;
    split; first [reflexivity | exact He].
Qed.

(** X9.  An effect armed with [n] ticks to run is on after each of the
    next [n - 1] runs of the lightning block, with the timer counting
    down by one, and is off with the timer at 0 from the [n]-th run on:
    armed with 30 by a hornet hit, it is shown for 30 frames. *)
Theorem lightning_lasts_as_armed (n : Z) (k : nat) (g : Game) :
  lightningEffect g = true ->
  lightningTimer g = n ->
  1 <= n <= GoInt.maxInt ->
  (Z.of_nat k < n ->
   lightningEffect (Nat.iter k lightningStep g) = true /\
   lightningTimer (Nat.iter k lightningStep g) = n - Z.of_nat k) /\
  (n <= Z.of_nat k ->
   lightningEffect (Nat.iter k lightningStep g) = false /\
   lightningTimer (Nat.iter k lightningStep g) = 0).
Proof.
  intros He Ht Hn. induction k as [| k [IHon IHoff]].
  - simpl. split; [intros _; split; [exact He | lia] | lia].
  - change (Nat.iter (S k) lightningStep g)
      with (lightningStep (Nat.iter k lightningStep g)).
    rewrite Nat2Z.inj_succ.
    destruct (Z.lt_ge_cases (Z.of_nat k) n) as [Hlt | Hge].
    + destruct (IHon Hlt) as [Hek Htk].
      destruct (lightningStep_armed (Nat.iter k lightningStep g) Hek)
        as [Ht' He']; [lia |].
      rewrite Ht', He', Htk. split; intros H.
      * split; [apply Z.ltb_lt; lia | lia].
      * split; [apply Z.ltb_ge; lia | lia].
    + destruct (IHoff Hge) as [Hek Htk].
      set (gk := Nat.iter k lightningStep g) in *.
      assert (Hfix : lightningStep gk = gk)
        by (unfold lightningStep; rewrite Hek; reflexivity).
      rewrite Hfix. split; intros H; [lia | split; assumption].
Qed.

Lemma lightningStep_inv (g : Game) :
  lightningInv g -> lightningInv (lightningStep g).
Proof.
  intros [Hr He]. destruct (lightningEffect g) eqn:E.
  - destruct (lightningStep_armed g E) as [Ht' He'].
    { unfold GoInt.maxInt. specialize (He eq_refl). lia. }
    specialize (He eq_refl). unfold lightningInv. rewrite Ht', He'.
    split; [lia |]. intros H. apply Z.ltb_lt in H. lia.
  - unfold lightningStep. rewrite E.
    split; [exact Hr | rewrite E; exact He].
Qed.

(** The lightning fields before click handling are those the lightning
    block leaves. *)
Lemma beforeClick_lightning (inp : Input) (g1 g2 : Game) :
  beforeClick assets inp g1 = Some g2 ->
  lightningEffect g2 = lightningEffect (lightningStep g1) /\
  lightningTimer g2 = lightningTimer (lightningStep g1).
Proof.
  unfold beforeClick. intros H.
  destruct (spawnStep assets inp g1) as [g1' |] eqn:Hs; [| discriminate].
  injection H as <-. apply spawnStep_cases in Hs.
  destruct Hs as [-> | (_ & b & _ & ->)];
    unfold moveStep, lightningStep; simpl;
    (destruct (lightningEffect g1); simpl;
     [destruct (_ <=? 0) |]; split; reflexivity).
Qed.

Lemma lightningInv_step (inp : Input) (g g' : Game) :
  lightningInv g ->
  Update assets inp g = Some g' ->
  lightningInv g'.
Proof.
  intros Hinv HU.
  destruct (Update_cases assets inp g g' HU)
    as [(_ & Hg') | [(_ & Hg') | [(_ & _ & ->) |
        (_ & _ & g2 & Hb & Hg')]]].
  - destruct Hg' as [-> | ->]; exact Hinv.
  - destruct Hg' as [-> | ->]; [exact Hinv |].
    destruct Hinv as [Hr _]. split; simpl; [exact Hr | discriminate].
  - exact Hinv.
  - apply beforeClick_lightning in Hb. destruct Hb as [He2 Ht2].
    assert (Hinv2 : lightningInv g2).
    { pose proof (lightningStep_inv
                    (set_remainingTime (computedRemaining inp g) g) Hinv)
        as H.
      unfold lightningInv in *. rewrite He2, Ht2. exact H. }
    destruct Hg' as [-> | (pre & b & post & _ & _ & _ & _ & ->)].
    + exact Hinv2.
    + unfold lightningInv.
      cbn [removeInvisible set_bees lightningEffect lightningTimer].
      unfold onHit. destruct (isHornets b).
      * simpl. destruct (3 <=? _); simpl; split; lia.
      * destruct (isHighSpeed b); exact Hinv2.
Qed.

(** X10.  In every reachable state the lightning timer is between 0 and
    30, and at least 1 while the effect is on: the effect never outlives
    its timer. *)
Theorem lightning_timer_bounded (g : Game) :
  reachable assets g ->
  0 <= lightningTimer g <= 30 /\
  (lightningEffect g = true -> 1 <= lightningTimer g).
Proof.
  induction 1 as [| inp g g' _ IH HU].
  - split; simpl; [lia | discriminate].
  - exact (lightningInv_step inp g g' IH HU).
Qed.

End Lightning.

Section Spawning.

Variable assets : Assets.

Lemma Intn_None (raw n : Z) : Intn raw n = None <-> n <= 0.
Proof.
  unfold Intn. destruct (Z.leb_spec n 0) as [Hn | Hn]; split; intros E;
    try reflexivity; try discriminate; lia.
Qed.

(** [addBee] panics exactly when the hit box of the sprite it picks does
    not fit the screen. *)
Lemma addBee_None (inp : Input) (g : Game) :
  addBee assets inp g = None <-> ~ fitsScreen (chosenImage assets inp).
Proof.
  unfold addBee, fitsScreen, chosenImage.
  set (img := if F64.lt (rollHornets inp) F64.c0_2
              then hornetsImage assets else beeImage assets).
  destruct (Intn (rawX inp) _) as [px |] eqn:Ex.
  - destruct (Intn (rawY inp) _) as [py |] eqn:Ey.
    + split; [discriminate |]. intros Hn. exfalso. apply Hn.
      unfold Intn in Ex, Ey.
      destruct (Z.leb_spec (GoInt.sub screenWidth (GoInt.div (imgWidth img) 2)) 0);
        [discriminate |].
      destruct (Z.leb_spec (GoInt.sub screenHeight (GoInt.div (imgHeight img) 2)) 0);
        [discriminate |].
      split; assumption.
    + split; [| reflexivity]. intros _ [_ Hh].
      apply Intn_None in Ey. lia.
  - split; [| reflexivity]. intros _ [Hw _].
    apply Intn_None in Ex. lia.
Qed.

(** X11.  The only panic of [Update] is the one of [rand.Intn] in
    [addBee]: a tick fails exactly when the game is playing, the clock has
    not run out, the spawn draw succeeds with fewer than 10 bees in the
    slice, and the hit box of the sprite picked does not fit the
    screen. *)
Theorem Update_panics_only_when_spawning (inp : Input) (g : Game) :
  Update assets inp g = None <->
  phase g = Playing /\
  0 < computedRemaining inp g /\
  F64.lt (rollSpawn inp) F64.c0_05 = true /\
  (length (bees g) < 10)%nat /\
  ~ fitsScreen (chosenImage assets inp).
Proof.
  unfold Update, phase.
  destruct (gameStarted g); simpl.
  2: { destruct (justPressed inp); split;
         [discriminate | intros [H _]; discriminate
         | discriminate | intros [H _]; discriminate]. }
  destruct (gameOver g).
  { destruct (justPressed inp); split;
      [discriminate | intros [H _]; discriminate
      | discriminate | intros [H _]; discriminate]. }
  destruct (Z.leb_spec (computedRemaining inp g) 0) as [Hr | Hr].
  { split; [discriminate | intros (_ & H & _); lia]. }
  unfold beforeClick, spawnStep. cbn [bees set_remainingTime].
  destruct (F64.lt (rollSpawn inp) F64.c0_05); simpl.
  2: { split; [discriminate | intros (_ & _ & H & _); discriminate]. }
  destruct (Z.ltb_spec (Z.of_nat (length (bees g))) 10) as [Hl | Hl].
  2: { split; [discriminate | intros (_ & _ & _ & H & _); lia]. }
  destruct (addBee assets inp _) as [g1 |] eqn:Ha.
  - split; [discriminate |]. intros (_ & _ & _ & _ & Hn).
    apply (proj2 (addBee_None inp
                    (set_remainingTime (computedRemaining inp g) g))) in Hn.
    congruence.
  - apply addBee_None in Ha. split; [| reflexivity].
    intros _. repeat split; auto. lia.
Qed.

(** X12.  When [addBee] returns, the slice is the old one with one bee
    appended and nothing else has changed; with sprites of non-negative
    size, the new bee is visible, its hit box is half the sprite picked,
    its kind and speed tier are those the draws decide, and its position
    is that of an integer point which keeps the whole hit box on the
    screen [Layout] reports. *)
Theorem addBee_spawns_on_screen (inp : Input) (g g1 : Game) :
  0 <= imgWidth (chosenImage assets inp) <= GoInt.maxInt ->
  0 <= imgHeight (chosenImage assets inp) <= GoInt.maxInt ->
  addBee assets inp g = Some g1 ->
  exists b px py,
    g1 = set_bees (bees g ++ [b]) g /\
    visible b = true /\
    isHornets b = F64.lt (rollHornets inp) F64.c0_2 /\
    isHighSpeed b = F64.lt (rollHighSpeed inp) F64.c0_1 /\
    width b = imgWidth (chosenImage assets inp) / 2 /\
    height b = imgHeight (chosenImage assets inp) / 2 /\
    x b = F64.of_int px /\ y b = F64.of_int py /\
    (forall outsideWidth outsideHeight,
        0 <= px /\ px + width b < fst (Layout outsideWidth outsideHeight) /\
        0 <= py /\ py + height b < snd (Layout outsideWidth outsideHeight)).
Proof.
  unfold addBee, chosenImage.
  set (img := if F64.lt (rollHornets inp) F64.c0_2
              then hornetsImage assets else beeImage assets).
  intros Hw Hh H.
  assert (Hdiv : forall n, 0 <= n <= GoInt.maxInt ->
             GoInt.div n 2 = n / 2 /\ 0 <= n / 2 <= GoInt.maxInt).
  { intros n Hn. unfold GoInt.div.
    rewrite Z.quot_div_nonneg by lia.
    assert (0 <= n / 2 <= n) by (split; [apply Z.div_pos | apply Z.div_le_upper_bound]; lia).
    split; [| lia]. apply wrap_inRange.
    unfold GoInt.inRange, GoInt.minInt, GoInt.maxInt in *. lia. }
  destruct (Hdiv _ Hw) as [Ew Hw2]. destruct (Hdiv _ Hh) as [Eh Hh2].
  rewrite Ew, Eh in H.
  assert (Hsub : forall a n, 0 <= a <= 800 -> 0 <= n <= GoInt.maxInt ->
             GoInt.sub a n = a - n).
  { intros a n Ha Hn. apply wrap_inRange.
    unfold GoInt.inRange, GoInt.minInt, GoInt.maxInt in *. lia. }
  rewrite !Hsub in H by (unfold screenWidth, screenHeight; lia).
  unfold Intn in H.
  destruct (Z.leb_spec (screenWidth - imgWidth img / 2) 0) as [| Hpw];
    [discriminate |].
  destruct (Z.leb_spec (screenHeight - imgHeight img / 2) 0) as [| Hph];
    [discriminate |].
  injection H as <-.
  eexists. exists (rawX inp mod (screenWidth - imgWidth img / 2)).
  exists (rawY inp mod (screenHeight - imgHeight img / 2)).
  split; [reflexivity |]. cbn [visible isHornets isHighSpeed width height x y].
  repeat (split; [reflexivity |]).
  intros ow oh. unfold Layout. cbn [fst snd].
  pose proof (Z.mod_pos_bound (rawX inp) _ Hpw).
  pose proof (Z.mod_pos_bound (rawY inp) _ Hph).
  lia.
Qed.

End Spawning.

(** ** What moving never changes *)

Lemma abs_opp (v : float) : abs (- v) = abs v.
Proof.
  apply Prim2SF_inj. rewrite !FloatAxioms.abs_spec, FloatAxioms.opp_spec.
  destruct (Prim2SF v); reflexivity.
Qed.

Lemma moveBee_keeps (b : Bee) :
  width (moveBee b) = width b /\
  height (moveBee b) = height b /\
  isHornets (moveBee b) = isHornets b /\
  isHighSpeed (moveBee b) = isHighSpeed b /\
  visible (moveBee b) = visible b /\
  abs (speedX (moveBee b)) = abs (speedX b) /\
  abs (speedY (moveBee b)) = abs (speedY b).
Proof.
  pose proof (moveBee_visible b) as Hvis.
  unfold moveBee in *. destruct (visible b) eqn:Hv; simpl in *.
  - repeat (split; [reflexivity |]).
    split; [destruct (atWall _ screenWidth _)
           | destruct (atWall _ screenHeight _)];
      first [apply abs_opp | reflexivity].
  - repeat (split; [reflexivity |]). split; [exact Hv |].
    split; reflexivity.
Qed.

(** X13.  However many ticks a bee lives and however often it bounces,
    moving changes neither its size, kind, speed tier or visibility nor
    the magnitude of either velocity component: a bee never speeds up or
    slows down, it only changes direction. *)
Theorem moving_keeps_kind_size_and_speed (n : nat) (b : Bee) :
  width (Nat.iter n moveBee b) = width b /\
  height (Nat.iter n moveBee b) = height b /\
  isHornets (Nat.iter n moveBee b) = isHornets b /\
  isHighSpeed (Nat.iter n moveBee b) = isHighSpeed b /\
  visible (Nat.iter n moveBee b) = visible b /\
  abs (speedX (Nat.iter n moveBee b)) = abs (speedX b) /\
  abs (speedY (Nat.iter n moveBee b)) = abs (speedY b).
Proof.
  induction n as [| n IH]; [repeat split |].
  change (Nat.iter (S n) moveBee b) with (moveBee (Nat.iter n moveBee b)).
  destruct (moveBee_keeps (Nat.iter n moveBee b))
    as (H1 & H2 & H3 & H4 & H5 & H6 & H7).
  destruct IH as (I1 & I2 & I3 & I4 & I5 & I6 & I7).
  repeat split; congruence.
Qed.

(** ** Drawing *)

Section Drawing.

Variable assets : Assets.
Variable forest : Image.
Variable draws : nat -> Z * Z.

Lemma drawBees_visible (bs : list Bee) :
  drawBees bs = map spriteOf (filter visible bs).
Proof.
  induction bs as [| b rest IH]; simpl; [reflexivity |].
  destruct (visible b); simpl; rewrite IH; reflexivity.
Qed.

Lemma filter_sprites_map (bs : list Bee) :
  filter isSprite (map spriteOf bs) = map spriteOf bs.
Proof.
  induction bs as [| b rest IH]; simpl; [reflexivity |].
  rewrite IH. destruct (isHornets b); reflexivity.
Qed.

(** The lightning loop never panics and draws one bolt per round. *)
Lemma drawLightning_bolts (n i : nat) :
  exists ls,
    drawLightning draws i n = Some ls /\
    length ls = n /\ Forall isBolt ls /\
    filter isLine ls = ls /\ filter isSprite ls = [].
Proof.
  revert i. induction n as [| n IH]; intros i; cbn [drawLightning].
  - exists []. repeat split; constructor.
  - rewrite !Intn_positive by (unfold screenWidth; lia).
    destruct (IH (S i)) as (rest & -> & Hlen & Hb & Hl & Hs).
    eexists. split; [reflexivity |]. simpl. rewrite Hlen, Hl, Hs.
    repeat split; auto. constructor; [| exact Hb].
    eexists _, _. split; [reflexivity |].
    split; apply Z.mod_pos_bound; unfold screenWidth; lia.
Qed.

Lemma shadowed_plain (msg : string) (px py : Z) :
  filter isSprite (shadowed msg px py) = [] /\
  filter isLine (shadowed msg px py) = [].
Proof. split; reflexivity. Qed.

(** The calls of [Draw], sorted: no panic, sprites for the visible bees in
    the Playing phase only, bolts for an effect that is on in the Playing
    phase only. *)
Lemma Draw_sorted (g : Game) :
  exists ops,
    Draw forest draws g = Some ops /\
    filter isSprite ops =
      (match phase g with
       | Playing => map spriteOf (filter visible (bees g))
       | _ => []
       end) /\
    length (filter isLine ops) =
      (match phase g with
       | Playing => if lightningEffect g then 10%nat else 0%nat
       | _ => 0%nat
       end) /\
    Forall isBolt (filter isLine ops).
Proof.
  unfold Draw, phase.
  destruct (gameStarted g); cbn [negb].
  2: { eexists. split; [reflexivity |]. repeat split; constructor. }
  destruct (gameOver g).
  { eexists. split; [reflexivity |]. repeat split; constructor. }
  assert (Hl : exists ls,
             (if lightningEffect g then drawLightning draws 0 10 else Some [])
               = Some ls /\
             length ls = (if lightningEffect g then 10%nat else 0%nat) /\
             Forall isBolt ls /\
             filter isLine ls = ls /\ filter isSprite ls = []).
  { destruct (lightningEffect g).
    - apply drawLightning_bolts.
    - exists []. repeat split; constructor. }
  destruct Hl as (ls & -> & Hlen & Hb & Hfl & Hfs).
  eexists. split; [reflexivity |].
  assert (Hnl : filter isLine (drawBees (bees g)) = []).
  { rewrite drawBees_visible.
    induction (filter visible (bees g)) as [| b rest IH];
      [reflexivity | exact IH]. }
  cbn [drawForestBackground app filter isSprite isLine].
  rewrite !filter_app, Hfl, Hfs, Hnl.
  rewrite drawBees_visible, filter_sprites_map.
  cbn [shadowed filter isSprite isLine app].
  rewrite !app_nil_r. repeat split; assumption.
Qed.

(** X15.  [Draw] never panics.  At every tick boundary of a game being
    played it draws one sprite per bee of the slice, in slice order, at
    the bee's position and with the hornet image exactly for hornets;
    before the start and after the end it draws no sprite. *)
Theorem Draw_shows_every_bee (g : Game) :
  reachable assets g ->
  exists ops,
    Draw forest draws g = Some ops /\
    filter isSprite ops =
      (match phase g with
       | Playing => map spriteOf (bees g)
       | _ => []
       end).
Proof.
  intros Hg. destruct (Draw_sorted g) as (ops & HD & Hs & _).
  exists ops. split; [exact HD |]. rewrite Hs.
  rewrite (filter_all_visible (bees g) (reachable_all_visible assets g Hg)).
  reflexivity.
Qed.

(** X16.  The lines [Draw] draws are lightning bolts only: ten of them
    when the game is being played with the effect on, none otherwise,
    each running from the top edge to the bottom edge between two
    abscissas of the screen. *)
Theorem Draw_bolts_stay_on_screen (g : Game) :
  exists ops,
    Draw forest draws g = Some ops /\
    length (filter isLine ops) =
      (match phase g with
       | Playing => if lightningEffect g then 10%nat else 0%nat
       | _ => 0%nat
       end) /\
    Forall isBolt (filter isLine ops).
Proof.
  destruct (Draw_sorted g) as (ops & HD & _ & Hn & Hb).
  exists ops. repeat split; assumption.
Qed.

End Drawing.

(** ** Restarting *)

Section Restart.

Variable assets : Assets.

Lemma staleTwin_observable (g1 g2 : Game) :
  staleTwin g1 g2 -> observable g1 = observable g2.
Proof.
  intros [He [t ->]]. unfold observable.
  cbn [lightningEffect set_lightningTimer]. rewrite He. reflexivity.
Qed.

Lemma staleTwin_spawnStep (inp : Input) (g1 g2 : Game) :
  staleTwin g1 g2 ->
  match spawnStep assets inp g1, spawnStep assets inp g2 with
  | Some a, Some b => staleTwin a b
  | None, None => True
  | _, _ => False
  end.
Proof.
  intros [He [t ->]]. unfold spawnStep, addBee.
  cbn [bees set_lightningTimer].
  destruct (_ && _); [| split; [exact He | exists t; reflexivity]].
  destruct (Intn (rawX inp) _); [| exact I].
  destruct (Intn (rawY inp) _); [| exact I].
  split; [exact He | exists t; reflexivity].
Qed.

Lemma staleTwin_lightningStep (g1 g2 : Game) :
  staleTwin g1 g2 -> staleTwin (lightningStep g1) (lightningStep g2).
Proof.
  intros [He [t ->]]. unfold lightningStep.
  cbn [lightningEffect set_lightningTimer]. rewrite He.
  split; [exact He | exists t; reflexivity].
Qed.

Lemma staleTwin_clickStep (inp : Input) (g1 g2 : Game) :
  staleTwin g1 g2 ->
  staleTwin (clickStep inp g1) (clickStep inp g2) \/
  clickStep inp g1 = clickStep inp g2.
Proof.
  intros [He [t ->]]. unfold clickStep.
  destruct (justPressed inp); [| left; split; [exact He | exists t; reflexivity]].
  change (bees (set_lightningTimer t g1)) with (bees g1).
  destruct (first_hit_split (cursorX inp) (cursorY inp) (bees g1))
    as [Hall | (pre & b & post & Hsplit & Hpre & Hb)].
  - rewrite !clickLoop_miss by exact Hall.
    left. split; [exact He | exists t; reflexivity].
  - rewrite Hsplit, !clickLoop_first by assumption.
    unfold onHit. destruct (isHornets b).
    + right. cbn [hornetsClicked set_lightningTimer set_lightningEffect
                  set_hornetsClicked].
      destruct (3 <=? _); reflexivity.
    + left. destruct (isHighSpeed b);
        (split; [exact He | exists t; reflexivity]).
Qed.

(** The stale timer of an effect that is off does not show after a
    tick. *)
Lemma staleTwin_Update (inp : Input) (g1 g2 : Game) :
  staleTwin g1 g2 ->
  option_map observable (Update assets inp g1)
    = option_map observable (Update assets inp g2).
Proof.
  intros Htwin. pose proof Htwin as [He [t ->]].
  assert (Hc : computedRemaining inp (set_lightningTimer t g1)
               = computedRemaining inp g1) by reflexivity.
  unfold Update. cbv zeta. rewrite Hc.
  change (gameStarted (set_lightningTimer t g1)) with (gameStarted g1).
  change (gameOver (set_lightningTimer t g1)) with (gameOver g1).
  set (c := computedRemaining inp g1).
  change (remainingTime (set_remainingTime c (set_lightningTimer t g1)))
    with c.
  change (remainingTime (set_remainingTime c g1)) with c.
  assert (Hsame : forall f : Game -> Game,
             (forall g, staleTwin g (set_lightningTimer t g) ->
                        staleTwin (f g) (f (set_lightningTimer t g))) ->
             option_map observable (Some (f g1))
             = option_map observable (Some (f (set_lightningTimer t g1)))).
  { intros f Hf. simpl. f_equal. apply staleTwin_observable.
    apply Hf. exact Htwin. }
  assert (Htw : forall (f : Game -> Game) g,
             (forall u, f (set_lightningTimer u g)
                        = set_lightningTimer u (f g)) ->
             lightningEffect (f g) = lightningEffect g ->
             staleTwin g (set_lightningTimer t g) ->
             staleTwin (f g) (f (set_lightningTimer t g))).
  { intros f g Hcomm Hkeep [Hg _]. split; [congruence |].
    exists t. apply Hcomm. }
  destruct (gameStarted g1); cbn [negb].
  2: { destruct (justPressed inp); [| apply (Hsame (fun g => g)); auto].
       apply (Hsame (fun g => set_startTime (now inp)
                                (set_gameStarted true g))).
       intros g. apply (Htw (fun g => set_startTime (now inp)
                                        (set_gameStarted true g)));
         reflexivity. }
  destruct (gameOver g1).
  { destruct (justPressed inp); [| apply (Hsame (fun g => g)); auto].
    apply (Hsame (resetGame inp)).
    intros g _. split; [reflexivity | exists t; reflexivity]. }
  destruct (c <=? 0).
  { apply (Hsame (fun g => set_remainingTime 0
                             (set_gameOver true (set_remainingTime c g)))).
    intros g. apply (Htw (fun g => set_remainingTime 0
                                     (set_gameOver true
                                        (set_remainingTime c g))));
      reflexivity. }
  unfold beforeClick.
  assert (Hrt : staleTwin (set_remainingTime c g1)
                          (set_remainingTime c (set_lightningTimer t g1))).
  { split; [exact He | exists t; reflexivity]. }
  pose proof (staleTwin_spawnStep inp _ _ Hrt) as Hsp.
  destruct (spawnStep assets inp (set_remainingTime c g1)) as [a |];
    destruct (spawnStep assets inp
                (set_remainingTime c (set_lightningTimer t g1))) as [b |];
    try contradiction; [| reflexivity].
  apply staleTwin_lightningStep in Hsp.
  assert (Hmv : staleTwin (moveStep (lightningStep a))
                          (moveStep (lightningStep b))).
  { destruct Hsp as [He' [t' ->]].
    split; [exact He' | exists t'; reflexivity]. }
  simpl. f_equal.
  destruct (staleTwin_clickStep inp _ _ Hmv) as [[He' [t' ->]] | ->];
    [| reflexivity].
  apply staleTwin_observable. split; [exact He' | exists t'; reflexivity].
Qed.

(** Ticks respect what can be observed. *)
Lemma observable_Update (inp : Input) (g1 g2 : Game) :
  observable g1 = observable g2 ->
  option_map observable (Update assets inp g1)
    = option_map observable (Update assets inp g2).
Proof.
  unfold observable at 1 2.
  destruct (lightningEffect g1) eqn:E1, (lightningEffect g2) eqn:E2; intros H.
  - subst. reflexivity.
  - apply (f_equal lightningEffect) in H. simpl in H. congruence.
  - apply (f_equal lightningEffect) in H. simpl in H. congruence.
  - rewrite (staleTwin_Update inp g1 (set_lightningTimer 0 g1))
      by (split; [exact E1 | exists 0; reflexivity]).
    rewrite (staleTwin_Update inp g2 (set_lightningTimer 0 g2))
      by (split; [exact E2 | exists 0; reflexivity]).
    rewrite H. reflexivity.
Qed.

Lemma observable_run (inps : list Input) (g1 g2 : Game) :
  observable g1 = observable g2 ->
  option_map observable (run assets inps g1)
    = option_map observable (run assets inps g2).
Proof.
  revert g1 g2. induction inps as [| inp rest IH]; intros g1 g2 H; simpl.
  - rewrite H. reflexivity.
  - pose proof (observable_Update inp g1 g2 H) as HU.
    destruct (Update assets inp g1) as [a |],
             (Update assets inp g2) as [b |]; simpl in HU;
      try discriminate; [| reflexivity].
    injection HU as HU. apply IH. exact HU.
Qed.

Lemma Draw_observable (forest : Image) (draws : nat -> Z * Z) (g : Game) :
  Draw forest draws (observable g) = Draw forest draws g.
Proof.
  unfold observable. destruct (lightningEffect g) eqn:E; [reflexivity |].
  unfold Draw.
  cbn [set_lightningTimer gameStarted gameOver lightningEffect bees score
       remainingTime hornetsClicked].
  reflexivity.
Qed.

(** X17.  Playing again is a fresh start: from a game that is over, a
    press followed by any inputs goes the way the same press and inputs go
    from a new game.  The two runs panic together or end in states that
    differ at most in the stale timer of a lightning effect that is off,
    and [Draw] shows the same screen for both. *)
Theorem restart_is_a_fresh_start
        (inp : Input) (inps : list Input) (g : Game) :
  phase g = Over ->
  justPressed inp = true ->
  option_map observable (run assets (inp :: inps) g)
    = option_map observable (run assets (inp :: inps) NewGame) /\
  (forall forest draws g1 g2,
      run assets (inp :: inps) g = Some g1 ->
      run assets (inp :: inps) NewGame = Some g2 ->
      Draw forest draws g1 = Draw forest draws g2).
Proof.
  intros Hp Hj. apply phase_Over in Hp. destruct Hp as [Hs Ho].
  assert (Hobs : option_map observable (run assets (inp :: inps) g)
                 = option_map observable (run assets (inp :: inps) NewGame)).
  { assert (H1 : Update assets inp g = Some (resetGame inp g))
      by (unfold Update; rewrite Hs, Ho, Hj; reflexivity).
    assert (H2 : Update assets inp NewGame
                 = Some (set_startTime (now inp)
                           (set_gameStarted true NewGame)))
      by (unfold Update; cbn [NewGame gameStarted negb]; rewrite Hj;
          reflexivity).
    cbn [run]. rewrite H1, H2. apply observable_run.
    assert (Hreset : resetGame inp g
                     = set_lightningTimer (lightningTimer g)
                         (set_startTime (now inp)
                            (set_gameStarted true NewGame))).
    { destruct g. simpl in Hs. subst. reflexivity. }
    rewrite Hreset. apply staleTwin_observable.
    split; [reflexivity | eexists; reflexivity]. }
  split; [exact Hobs |].
  intros forest draws g1 g2 H1 H2. rewrite H1, H2 in Hobs.
  injection Hobs as Hobs.
  rewrite <- (Draw_observable forest draws g1), Hobs.
  apply Draw_observable.
Qed.

End Restart.

(** ** The further properties on sample games *)

Lemma afterThreePenalties_reachable :
  reachable Sample.assets Sample.afterThreePenalties.
Proof.
  apply (reachable_step Sample.assets (Sample.press 6 310 310)
           Sample.afterTwoPenalties).
  - exact afterTwoPenalties_reachable.
  - vm_compute. reflexivity.
Qed.

Lemma not_started_is_new_game_witness :
  run Sample.assets [Sample.idle 1; Sample.idle 2] NewGame = Some NewGame /\
  NewGame = NewGame.
Proof.
  split; [vm_compute; reflexivity |].
  apply (not_started_is_new_game Sample.assets NewGame).
  - apply (reachable_run Sample.assets [Sample.idle 1; Sample.idle 2] NewGame);
      [apply reachable_new | vm_compute; reflexivity].
  - reflexivity.
Defined.

Lemma never_back_to_not_started_witness :
  phase Sample.afterThreePenalties <> NotStarted.
Proof.
  apply (never_back_to_not_started Sample.assets
           [Sample.press 6 310 310] Sample.afterTwoPenalties).
  - vm_compute. discriminate.
  - vm_compute. reflexivity.
Defined.

Lemma frozen_until_press_witness :
  run Sample.assets
      [Sample.idle 7; Sample.spawnHornet 8 100 300; Sample.idle 90]
      Sample.afterThreePenalties
    = Some Sample.afterThreePenalties.
Proof.
  apply (frozen_until_press Sample.assets).
  - vm_compute. discriminate.
  - repeat constructor.
Defined.

Lemma game_ends_by_clock_or_third_hornet_witness :
  phase Sample.afterThreePenalties = Over <->
  computedRemaining (Sample.press 6 310 310) Sample.afterTwoPenalties <= 0 \/
  hornetsClicked Sample.afterThreePenalties = 3.
Proof.
  apply (game_ends_by_clock_or_third_hornet Sample.assets
           (Sample.press 6 310 310) Sample.afterTwoPenalties
           Sample.afterThreePenalties).
  - exact afterTwoPenalties_reachable.
  - reflexivity.
  - vm_compute. reflexivity.
Defined.

Lemma hit_books_penalty_and_lightning_witness :
  exists g',
    Update Sample.assets (Sample.press 6 310 310) Sample.afterTwoPenalties
      = Some g' /\
    (true = true ->
     hornetsClicked g' = 2 + 1 /\
     lightningEffect g' = true /\ lightningTimer g' = 30) /\
    (true = false ->
     hornetsClicked g' = 2 /\
     lightningEffect g' = true /\ lightningTimer g' = 29 /\
     phase g' = Playing).
Proof.
  apply (hit_books_penalty_and_lightning Sample.assets
           (Sample.press 6 310 310) Sample.afterTwoPenalties
           (moveStep (lightningStep
                        (set_remainingTime 54 Sample.afterTwoPenalties)))
           [] [] (Sample.bee 300 300 0 0 true false)).
  - exact afterTwoPenalties_reachable.
  - reflexivity.
  - vm_compute. reflexivity.
  - reflexivity.
  - vm_compute. reflexivity.
  - vm_compute. reflexivity.
  - constructor.
  - vm_compute. reflexivity.
Defined.

Lemma tick_moves_all_and_drops_at_most_one_witness :
  exists spawned pre hit post,
    (length spawned <= 1)%nat /\
    (length hit <= 1)%nat /\
    (justPressed (Sample.press 6 310 310) = false -> hit = []) /\
    map moveBee (bees Sample.afterTwoPenalties ++ spawned)
      = pre ++ hit ++ post /\
    bees Sample.afterThreePenalties = pre ++ post.
Proof.
  apply (tick_moves_all_and_drops_at_most_one Sample.assets
           (Sample.press 6 310 310) Sample.afterTwoPenalties
           Sample.afterThreePenalties).
  - exact afterTwoPenalties_reachable.
  - reflexivity.
  - vm_compute. reflexivity.
  - vm_compute. reflexivity.
Defined.

Lemma score_moves_by_at_most_three_witness :
  Update Sample.assets (Sample.press 2 110 310) Sample.twoBees
    = Some (set_bees [Sample.backBee]
              (set_score 6 (set_remainingTime 58 Sample.twoBees))) /\
  0 <= 6 <= score Sample.twoBees + 3.
Proof.
  split; [vm_compute; reflexivity |].
  apply (score_moves_by_at_most_three Sample.assets
           (Sample.press 2 110 310) Sample.twoBees
           (set_bees [Sample.backBee]
              (set_score 6 (set_remainingTime 58 Sample.twoBees)))).
  - vm_compute. discriminate.
  - vm_compute. discriminate.
  - vm_compute. reflexivity.
Defined.

Lemma score_bounded_along_runs_witness :
  0 <= score Sample.afterTwoPenalties
    <= 3 * Z.of_nat (length Sample.twoPenalties).
Proof.
  apply (score_bounded_along_runs Sample.assets Sample.twoPenalties
           Sample.afterTwoPenalties).
  - vm_compute. discriminate.
  - vm_compute. reflexivity.
Defined.

Lemma lightning_lasts_as_armed_witness :
  (lightningEffect (Nat.iter 29 lightningStep Sample.afterThreePenalties)
     = true /\
   lightningTimer (Nat.iter 29 lightningStep Sample.afterThreePenalties)
     = 30 - 29) /\
  (lightningEffect (Nat.iter 30 lightningStep Sample.afterThreePenalties)
     = false /\
   lightningTimer (Nat.iter 30 lightningStep Sample.afterThreePenalties)
     = 0).
Proof.
  split.
  - apply (lightning_lasts_as_armed 30 29 Sample.afterThreePenalties);
      try reflexivity; vm_compute; split; discriminate.
  - apply (lightning_lasts_as_armed 30 30 Sample.afterThreePenalties);
      try reflexivity; vm_compute; try split; discriminate.
Defined.

Lemma lightning_timer_bounded_witness :
  0 <= lightningTimer Sample.afterThreePenalties <= 30 /\
  (lightningEffect Sample.afterThreePenalties = true ->
   1 <= lightningTimer Sample.afterThreePenalties).
Proof.
  exact (lightning_timer_bounded Sample.assets Sample.afterThreePenalties
           afterThreePenalties_reachable).
Defined.

Lemma addBee_spawns_on_screen_witness :
  exists b px py,
    set_bees [Sample.bee 100 300 0 0 true false] (Sample.playing [] 0 0)
      = set_bees (bees (Sample.playing [] 0 0) ++ [b])
                 (Sample.playing [] 0 0) /\
    visible b = true /\
    isHornets b = true /\
    isHighSpeed b = false /\
    width b = 64 / 2 /\
    height b = 64 / 2 /\
    x b = F64.of_int px /\ y b = F64.of_int py /\
    (forall outsideWidth outsideHeight,
        0 <= px /\ px + width b < fst (Layout outsideWidth outsideHeight) /\
        0 <= py /\ py + height b < snd (Layout outsideWidth outsideHeight)).
Proof.
  apply (addBee_spawns_on_screen Sample.assets
           (Sample.spawnHornet 1 100 300) (Sample.playing [] 0 0)
           (set_bees [Sample.bee 100 300 0 0 true false]
                     (Sample.playing [] 0 0))).
  - vm_compute. split; discriminate.
  - vm_compute. split; discriminate.
  - vm_compute. reflexivity.
Defined.

Lemma clock_and_penalties_explain_game_over_witness :
  0 <= remainingTime Sample.afterThreePenalties /\
  (phase Sample.afterThreePenalties <> Over ->
   0 < remainingTime Sample.afterThreePenalties) /\
  (phase Sample.afterThreePenalties = Over ->
   hornetsClicked Sample.afterThreePenalties = 3 \/
   remainingTime Sample.afterThreePenalties = 0).
Proof.
  exact (clock_and_penalties_explain_game_over Sample.assets
           Sample.afterThreePenalties afterThreePenalties_reachable).
Defined.

Lemma Draw_shows_every_bee_witness :
  exists ops,
    Draw Sample.forest Sample.boltDraws Sample.afterTwoPenalties = Some ops /\
    filter isSprite ops
      = [DrawImage HornetsImg (Translate 300 300)].
Proof.
  exact (Draw_shows_every_bee Sample.assets Sample.forest Sample.boltDraws
           Sample.afterTwoPenalties afterTwoPenalties_reachable).
Defined.

Lemma restart_is_a_fresh_start_witness :
  option_map observable
    (run Sample.assets
         [Sample.press 10 0 0; Sample.spawnHornet 11 100 300; Sample.idle 12]
         Sample.afterThreePenalties)
  = option_map observable
      (run Sample.assets
           [Sample.press 10 0 0; Sample.spawnHornet 11 100 300; Sample.idle 12]
           NewGame).
Proof.
  apply (restart_is_a_fresh_start Sample.assets (Sample.press 10 0 0)
           [Sample.spawnHornet 11 100 300; Sample.idle 12]
           Sample.afterThreePenalties); reflexivity.
Defined.
